(** * zaiscrape: the crawl engine of [zaiscrape.py]

    A shallow embedding of [EmailScraper] (the crawl loop, the admission
    check, the per-page handling, the search for addresses in the text of
    a page) and of the methods of [EmailScraperUI] around it
    ([start_extraction], [run_scraper], [update_status], [display_results],
    [check_thread]).

    Conventions.
    - A Python [str] is a [string]: the sequence of its UTF-8 bytes.  On
      ASCII text the two coincide, and byte-wise comparison of UTF-8 orders
      strings exactly as Python orders them by code point.
    - A Python [set] of strings is a [gset string].
    - The callbacks and the other externally visible actions of the engine
      (HTTP GET, the politeness pause) are recorded, in order, in a trace of
      [Event]s.
    - What the code gets from outside is a field of [World]: the answers of
      the network, the two functions imported from [urllib.parse], the
      element [set.pop()] picks, the order in which [list(set)] enumerates,
      and the moments at which another thread calls [stop_scraping].
    - The two callbacks return normally. *)

From Stdlib Require Import Ascii.
From stdpp Require Import base decidable option list sorting gmap.
From stdpp Require Import strings pretty.

Local Open Scope string_scope.
Local Open Scope list_scope.
Local Open Scope nat_scope.

(* [set_solver] clears hypotheses it has already consumed. *)
#[local] Set Warnings "-clear-no-such-hyp".

(** ** Exceptions *)

(** The outcome of a call that may raise: the value, or the text [str(e)]
    of the exception. *)
Inductive result (A : Type) : Type :=
| Ok (a : A)
| Raise (e : string).
Global Arguments Ok {A} a.
Global Arguments Raise {A} e.

(** ** String operations of Python used by the code *)

Module Str.

Definition newline : string := String "010" "".

(** [c in s] *)
Fixpoint contains (c : ascii) (s : string) : bool :=
  match s with
  | "" => false
  | String a s' => if decide (a = c) then true else contains c s'
  end.

(** [s.find(c)], [None] for -1 *)
Fixpoint find (c : ascii) (s : string) : option nat :=
  match s with
  | "" => None
  | String a s' => if decide (a = c) then Some 0 else S <$> find c s'
  end.

(** [s[:n]] *)
Fixpoint take (n : nat) (s : string) : string :=
  match n, s with
  | S n', String a s' => String a (take n' s')
  | _, _ => ""
  end.

(** [s[n:]] *)
Fixpoint drop (n : nat) (s : string) : string :=
  match n, s with
  | S n', String _ s' => drop n' s'
  | _, _ => s
  end.

(** [s.startswith(p)] *)
Definition startswith (p s : string) : bool := String.prefix p s.

(** [s.partition(c)]: text before the first [c], whether [c] was found,
    text after it. *)
Fixpoint partition (c : ascii) (s : string) : string * bool * string :=
  match s with
  | "" => ("", false, "")
  | String a s' =>
      if decide (a = c) then ("", true, s')
      else let '(before, found, after) := partition c s' in
           (String a before, found, after)
  end.

(** [s.rpartition(c)]: split at the last [c]; when there is none the whole
    text is the third component. *)
Fixpoint rpartition (c : ascii) (s : string) : string * bool * string :=
  match s with
  | "" => ("", false, "")
  | String a s' =>
      let '(before, found, after) := rpartition c s' in
      if found then (String a before, true, after)
      else if decide (a = c) then ("", true, s')
      else ("", false, String a after)
  end.

(** [s.split(c)] *)
Fixpoint split (c : ascii) (s : string) : list string :=
  match s with
  | "" => [""]
  | String a s' =>
      if decide (a = c) then "" :: split c s'
      else match split c s' with
           | w :: ws => String a w :: ws
           | [] => [String a ""]
           end
  end.

(** [sep.join(parts)] *)
Fixpoint join (sep : string) (parts : list string) : string :=
  match parts with
  | [] => ""
  | [w] => w
  | w :: ws => w +:+ sep +:+ join sep ws
  end.

Definition code (a : ascii) : nat := nat_of_ascii a.

Definition is_upper (a : ascii) : bool := (65 <=? code a) && (code a <=? 90).
Definition is_lower (a : ascii) : bool := (97 <=? code a) && (code a <=? 122).
Definition is_digit (a : ascii) : bool := (48 <=? code a) && (code a <=? 57).
(** [c.isascii() and c.isalpha()] *)
Definition is_ascii_alpha (a : ascii) : bool := is_upper a || is_lower a.

Definition lower_char (a : ascii) : ascii :=
  if is_upper a then ascii_of_nat (code a + 32) else a.

(** [s.lower()], on the ASCII letters *)
Fixpoint lower (s : string) : string :=
  match s with
  | "" => ""
  | String a s' => String (lower_char a) (lower s')
  end.

Fixpoint forallb (p : ascii → bool) (s : string) : bool :=
  match s with
  | "" => true
  | String a s' => p a && forallb p s'
  end.

Fixpoint filter (p : ascii → bool) (s : string) : string :=
  match s with
  | "" => ""
  | String a s' => if p a then String a (filter p s') else filter p s'
  end.

(** [s.lstrip(chars)] with [chars] given as a predicate *)
Fixpoint lstrip (p : ascii → bool) (s : string) : string :=
  match s with
  | "" => ""
  | String a s' => if p a then lstrip p s' else s
  end.

(** [s.rstrip(chars)] *)
Fixpoint rstrip (p : ascii → bool) (s : string) : string :=
  match s with
  | "" => ""
  | String a s' =>
      match rstrip p s' with
      | "" => if p a then "" else String a ""
      | r => String a r
      end
  end.

Definition strip (p : ascii → bool) (s : string) : string :=
  rstrip p (lstrip p s).

(** The ASCII characters for which [str.isspace] holds. *)
Definition is_whitespace (a : ascii) : bool :=
  ((9 <=? code a) && (code a <=? 13)) ||
  ((28 <=? code a) && (code a <=? 32)).

(** [s.isascii()] *)
Definition isascii (s : string) : bool := forallb (λ a, code a <? 128) s.

(** *** [str.strip()]

    Called without argument, [strip] removes the characters for which
    [str.isspace] holds.  Their UTF-8 encodings start with a byte that is
    no continuation byte, so on the encoding of a text a match of one of
    them is that character. *)

(** The text made of the given bytes. *)
Definition bytes (l : list nat) : string :=
  foldr (λ n s, String (ascii_of_nat n) s) "" l.

(** The UTF-8 encodings of the characters [c] with [c.isspace()]: U+0009 to
    U+000D, U+001C to U+0020, U+0085, U+00A0, U+1680, U+2000 to U+200A,
    U+2028, U+2029, U+202F, U+205F and U+3000. *)
Definition isspace_chars : list string :=
  map bytes
    [[9]; [10]; [11]; [12]; [13]; [28]; [29]; [30]; [31]; [32];
     [194; 133]; [194; 160]; [225; 154; 128];
     [226; 128; 128]; [226; 128; 129]; [226; 128; 130]; [226; 128; 131];
     [226; 128; 132]; [226; 128; 133]; [226; 128; 134]; [226; 128; 135];
     [226; 128; 136]; [226; 128; 137]; [226; 128; 138];
     [226; 128; 168]; [226; 128; 169]; [226; 128; 175];
     [226; 129; 159]; [227; 128; 128]].

(** The number of bytes of the white-space character [s] starts with;
    0 when it starts with none. *)
Definition space_length (s : string) : nat :=
  match List.find (λ w, startswith w s) isspace_chars with
  | Some w => String.length w
  | None => 0
  end.

(** [s.lstrip()], with [skip] bytes still to drop of a white-space
    character found before. *)
Fixpoint lstrip_from (skip : nat) (s : string) : string :=
  match s with
  | "" => ""
  | String _ s' =>
      match skip with
      | S skip' => lstrip_from skip' s'
      | 0 =>
          match space_length s with
          | S skip' => lstrip_from skip' s'
          | 0 => s
          end
      end
  end.

Definition lstrip_space (s : string) : string := lstrip_from 0 s.

(** [s.rstrip()]: the text up to the point from which only white space
    follows. *)
Fixpoint rstrip_space (s : string) : string :=
  match s with
  | "" => ""
  | String a s' =>
      if bool_decide (lstrip_space s = "") then ""
      else String a (rstrip_space s')
  end.

(** [s.strip()] *)
Definition strip_space (s : string) : string :=
  rstrip_space (lstrip_space s).

End Str.

(** ** [urllib.parse]

    [urlparse] and [urljoin] come from Python's standard library, not from
    the repository; the engine takes them from its [World].  This module is
    a reference model of the two, after CPython 3.11's [urllib/parse.py]
    called with [allow_fragments=True] on text, used to run the engine on
    concrete URLs.  Two checks of the library depend on tables that are not
    reproduced here and are taken as arguments: the validation of a
    bracketed host ([_check_bracketed_host], which calls [ipaddress]) and
    the NFKC test that [_checknetloc] applies to a netloc holding a
    non-ASCII character. *)

Record ParseResult := {
  scheme : string;
  netloc : string;
  path : string;
  params : string;
  query : string;
  fragment : string;
}.

Module UrlLib.

Definition uses_relative : list string :=
  [""; "ftp"; "http"; "gopher"; "nntp"; "imap"; "wais"; "file"; "https";
   "shttp"; "mms"; "prospero"; "rtsp"; "rtspu"; "sftp"; "svn"; "svn+ssh";
   "ws"; "wss"].

Definition uses_netloc : list string :=
  [""; "ftp"; "http"; "gopher"; "nntp"; "telnet"; "imap"; "wais"; "file";
   "mms"; "https"; "shttp"; "snews"; "prospero"; "rtsp"; "rtspu"; "rsync";
   "svn"; "svn+ssh"; "sftp"; "nfs"; "git"; "git+ssh"; "ws"; "wss"].

Definition uses_params : list string :=
  [""; "ftp"; "hdl"; "prospero"; "http"; "imap"; "https"; "shttp"; "rtsp";
   "rtspu"; "sip"; "sips"; "mms"; "sftp"; "tel"].

Definition scheme_char (a : ascii) : bool :=
  Str.is_lower a || Str.is_upper a || Str.is_digit a ||
  bool_decide (a = "+"%char) || bool_decide (a = "-"%char) ||
  bool_decide (a = "."%char).

(** [_WHATWG_C0_CONTROL_OR_SPACE] *)
Definition c0_control_or_space (a : ascii) : bool := Str.code a <=? 32.

(** not in [_UNSAFE_URL_BYTES_TO_REMOVE] *)
Definition safe_byte (a : ascii) : bool :=
  negb (bool_decide (a = "009"%char) || bool_decide (a = "013"%char) ||
        bool_decide (a = "010"%char)).

(** [_splitnetloc(url, 2)] on a [url] that starts with two slashes: the
    netloc runs up to the first of [/], [?], [#]. *)
Fixpoint splitnetloc_from (s : string) : string * string :=
  match s with
  | "" => ("", "")
  | String a s' =>
      if bool_decide (a = "/"%char) || bool_decide (a = "?"%char) ||
         bool_decide (a = "#"%char)
      then ("", s)
      else let '(domain, rest) := splitnetloc_from s' in
           (String a domain, rest)
  end.
Definition _splitnetloc (url : string) : string * string :=
  splitnetloc_from (Str.drop 2 url).

Section Parse.
Context (_check_bracketed_host : string → result unit).
Context (nfkc_check : string → result unit).

Definition _checknetloc (netloc : string) : result unit :=
  if bool_decide (netloc = "") || Str.isascii netloc then Ok ()
  else nfkc_check netloc.

Definition _check_bracketed_netloc (netloc : string) : result unit :=
  let hostname_and_port := (Str.rpartition "@" netloc).2 in
  let '(before_bracket, have_open_br, bracketed) :=
    Str.partition "[" hostname_and_port in
  if have_open_br then
    if negb (bool_decide (before_bracket = "")) then
      Raise "Invalid IPv6 URL"
    else
      let '(hostname, _, port) := Str.partition "]" bracketed in
      if negb (bool_decide (port = "")) && negb (Str.startswith ":" port)
      then Raise "Invalid IPv6 URL"
      else _check_bracketed_host hostname
  else
    let '(hostname, _, port) := Str.partition ":" hostname_and_port in
    _check_bracketed_host hostname.

(** [urlsplit(url, scheme)]: scheme, netloc, path, query, fragment *)
Definition urlsplit (url scheme : string)
  : result (string * string * string * string * string) :=
  let url := Str.lstrip c0_control_or_space url in
  let scheme := Str.strip c0_control_or_space scheme in
  let url := Str.filter safe_byte url in
  let scheme := Str.filter safe_byte scheme in
  let '(scheme, url) :=
    match Str.find ":" url with
    | Some (S i) =>
        if Str.forallb Str.is_ascii_alpha (Str.take 1 url) &&
           Str.forallb scheme_char (Str.take (S i) url)
        then (Str.lower (Str.take (S i) url), Str.drop (S (S i)) url)
        else (scheme, url)
    | _ => (scheme, url)
    end in
  let split_rest (netloc url : string) :=
    let '(url, fragment) :=
      if Str.contains "#" url
      then let '(u, _, f) := Str.partition "#" url in (u, f)
      else (url, "") in
    let '(url, query) :=
      if Str.contains "?" url
      then let '(u, _, q) := Str.partition "?" url in (u, q)
      else (url, "") in
    match _checknetloc netloc with
    | Raise e => Raise e
    | Ok _ => Ok (scheme, netloc, url, query, fragment)
    end in
  if Str.startswith "//" url then
    let '(netloc, url) := _splitnetloc url in
    let open_br := Str.contains "[" netloc in
    let close_br := Str.contains "]" netloc in
    if (open_br && negb close_br) || (close_br && negb open_br) then
      Raise "Invalid IPv6 URL"
    else if open_br && close_br then
      match _check_bracketed_netloc netloc with
      | Raise e => Raise e
      | Ok _ => split_rest netloc url
      end
    else split_rest netloc url
  else split_rest "" url.

(** [url.find(';', url.rfind('/'))] and the split at that index *)
Definition _splitparams (url : string) : string * string :=
  if Str.contains "/" url then
    let '(dir, _, last) := Str.rpartition "/" url in
    match Str.find ";" last with
    | None => (url, "")
    | Some i => (dir +:+ "/" +:+ Str.take i last, Str.drop (S i) last)
    end
  else
    let '(u, _, p) := Str.partition ";" url in (u, p).

Definition urlparse_with (url scheme : string) : result ParseResult :=
  match urlsplit url scheme with
  | Raise e => Raise e
  | Ok (scheme, netloc, url, query, fragment) =>
      let '(url, params) :=
        if bool_decide (scheme ∈ uses_params) && Str.contains ";" url
        then _splitparams url
        else (url, "") in
      Ok {| scheme := scheme; netloc := netloc; path := url;
            params := params; query := query; fragment := fragment |}
  end.

(** [urlparse(url)] *)
Definition urlparse (url : string) : result ParseResult :=
  urlparse_with url "".

Definition urlunsplit (scheme netloc url query fragment : string)
  : string :=
  let url :=
    if negb (bool_decide (netloc = "")) ||
       (negb (bool_decide (scheme = "")) &&
        bool_decide (scheme ∈ uses_netloc) &&
        negb (Str.startswith "//" url))
    then
      let url :=
        if negb (bool_decide (url = "")) && negb (Str.startswith "/" url)
        then "/" +:+ url else url in
      "//" +:+ netloc +:+ url
    else url in
  let url :=
    if negb (bool_decide (scheme = "")) then scheme +:+ ":" +:+ url
    else url in
  let url :=
    if negb (bool_decide (query = "")) then url +:+ "?" +:+ query
    else url in
  if negb (bool_decide (fragment = "")) then url +:+ "#" +:+ fragment
  else url.

Definition urlunparse (p : ParseResult) : string :=
  let url :=
    if negb (bool_decide (params p = "")) then path p +:+ ";" +:+ params p
    else path p in
  urlunsplit (scheme p) (netloc p) url (query p) (fragment p).

(** [segments[1:-1] = filter(None, segments[1:-1])] *)
Definition drop_empty_inner (segments : list string) : list string :=
  match segments with
  | first :: (_ :: _) as rest =>
      first :: List.filter (λ s, negb (bool_decide (s = "")))
                 (removelast rest) ++ [List.last rest ""]
  | _ => segments
  end.

(** the loop over [segments] that builds [resolved_path] *)
Fixpoint resolve (segments resolved_path : list string) : list string :=
  match segments with
  | [] => resolved_path
  | seg :: rest =>
      if bool_decide (seg = "..") then resolve rest (removelast resolved_path)
      else if bool_decide (seg = ".") then resolve rest resolved_path
      else resolve rest (resolved_path ++ [seg])
  end.

(** [urljoin(base, url)] *)
Definition urljoin (base url : string) : result string :=
  if bool_decide (base = "") then Ok url
  else if bool_decide (url = "") then Ok base
  else
    match urlparse_with base "" with
    | Raise e => Raise e
    | Ok b =>
      match urlparse_with url (scheme b) with
      | Raise e => Raise e
      | Ok u =>
        if negb (bool_decide (scheme u = scheme b)) ||
           negb (bool_decide (scheme u ∈ uses_relative))
        then Ok url
        else if bool_decide (scheme u ∈ uses_netloc) &&
                negb (bool_decide (netloc u = ""))
        then Ok (urlunparse u)
        else
          let netloc' :=
            if bool_decide (scheme u ∈ uses_netloc) then netloc b
            else netloc u in
          if bool_decide (path u = "") && bool_decide (params u = "")
          then
            Ok (urlunparse
                  {| scheme := scheme u; netloc := netloc';
                     path := path b; params := params b;
                     query := if bool_decide (query u = "")
                              then query b else query u;
                     fragment := fragment u |})
          else
            let base_parts := Str.split "/" (path b) in
            let base_parts :=
              if negb (bool_decide (List.last base_parts "" = ""))
              then removelast base_parts else base_parts in
            let segments :=
              if Str.startswith "/" (path u) then Str.split "/" (path u)
              else drop_empty_inner
                     (base_parts ++ Str.split "/" (path u)) in
            let resolved_path := resolve segments [] in
            let resolved_path :=
              if bool_decide (List.last segments "" ∈ ["."; ".."])
              then resolved_path ++ [""] else resolved_path in
            let joined := Str.join "/" resolved_path in
            Ok (urlunparse
                  {| scheme := scheme u; netloc := netloc';
                     path := if bool_decide (joined = "") then "/"
                             else joined;
                     params := params u; query := query u;
                     fragment := fragment u |})
      end
    end.

End Parse.

(** [ParseResult.hostname] ([None] is [""] here) *)
Definition hostname (p : ParseResult) : string :=
  let hostinfo := (Str.rpartition "@" (netloc p)).2 in
  let '(_, have_open_br, bracketed) := Str.partition "[" hostinfo in
  let hostname :=
    if have_open_br then (Str.partition "]" bracketed).1.1
    else (Str.partition ":" hostinfo).1.1 in
  let '(hostname, percent, zone) := Str.partition "%" hostname in
  Str.lower hostname +:+ (if percent then "%" else "") +:+ zone.

End UrlLib.

(** ** The engine's interface to the outside *)

(** What the caller and the network observe of a run, in order. *)
Inductive Event :=
| Status (message : string)      (** [status_callback(message)] *)
| Get (url : string)             (** [requests.get(url, timeout=5, ...)] *)
| Sleep                          (** [time.sleep(1)] *)
| Result (emails : list string). (** [result_callback(emails)] *)

Global Instance Event_eq_dec : EqDecision Event.
Proof. solve_decision. Defined.

(** What lines 50 to 56 and 63 of [_crawl_page] obtain for a URL.
    [RequestException e]: [requests.get] or [raise_for_status] raised a
    [requests.exceptions.RequestException] with [str(e) = e]; a connection
    failure, a timeout and the [HTTPError] of a bad status code are all
    subclasses of it.  [OtherException e]: any other exception raised while
    fetching or parsing.  [Document found_emails hrefs]: the page was
    fetched and parsed; [found_emails] is what [_find_emails_on_page]
    returns ([re.findall] on the page text, in order, with repetitions) and
    [hrefs] lists [link['href']] for the [link]s of
    [soup.find_all('a', href=True)], in document order. *)
Inductive Fetched :=
| RequestException (e : string)
| OtherException (e : string)
| Document (found_emails : list string) (hrefs : list string).

Class World := {
  (** [urllib.parse.urlparse] and [urllib.parse.urljoin] *)
  urlparse : string → result ParseResult;
  urljoin : string → string → result string;
  (** the network and the HTML parser *)
  fetch : string → Fetched;
  (** the element [set.pop()] removes at the [i]-th iteration of the loop *)
  set_pop : nat → gset string → string;
  set_pop_elem i (X : gset string) : X ≠ ∅ → set_pop i X ∈ X;
  (** [list(s)] for a set [s] *)
  set_list : gset string → list string;
  set_list_perm (X : gset string) : set_list X ≡ₚ elements X;
  (** whether another thread has called [stop_scraping] between the
      [i]-th test of the loop condition and the one before it *)
  stop_requested : nat → bool;
}.

(** ** [EmailScraper] *)

(** The fields of [self]; the two callbacks are the [Status] and [Result]
    events. *)
Record EmailScraper := {
  base_url : string;
  domain : string;
  emails_found : gset string;
  visited_urls : gset string;
  urls_to_visit : gset string;
  is_scraping : bool;
  max_pages : nat;
}.

Definition set_emails_found (v : gset string) (self : EmailScraper) :=
  {| base_url := base_url self; domain := domain self; emails_found := v;
     visited_urls := visited_urls self; urls_to_visit := urls_to_visit self;
     is_scraping := is_scraping self; max_pages := max_pages self |}.

Definition set_visited_urls (v : gset string) (self : EmailScraper) :=
  {| base_url := base_url self; domain := domain self;
     emails_found := emails_found self; visited_urls := v;
     urls_to_visit := urls_to_visit self; is_scraping := is_scraping self;
     max_pages := max_pages self |}.

Definition set_urls_to_visit (v : gset string) (self : EmailScraper) :=
  {| base_url := base_url self; domain := domain self;
     emails_found := emails_found self; visited_urls := visited_urls self;
     urls_to_visit := v; is_scraping := is_scraping self;
     max_pages := max_pages self |}.

Definition set_is_scraping (v : bool) (self : EmailScraper) :=
  {| base_url := base_url self; domain := domain self;
     emails_found := emails_found self; visited_urls := visited_urls self;
     urls_to_visit := urls_to_visit self; is_scraping := v;
     max_pages := max_pages self |}.

Section Engine.
Context `{W : World}.

(** [EmailScraper.__init__]; [urlparse(base_url)] may raise. *)
Definition __init__ (base_url : string) : result EmailScraper :=
  match urlparse base_url with
  | Raise e => Raise e
  | Ok parsed =>
      Ok {| base_url := base_url;
            domain := netloc parsed;
            emails_found := ∅;
            visited_urls := ∅;
            urls_to_visit := {[ base_url ]};
            is_scraping := true;
            max_pages := 50 |}
  end.

Definition _is_valid_url (self : EmailScraper) (url : string) : bool :=
  match urlparse url with
  | Ok parsed_url =>
      let is_same_domain := bool_decide (netloc parsed_url = domain self) in
      let is_http_or_https :=
        bool_decide (scheme parsed_url ∈ ["http"; "https"]) in
      let is_not_visited := bool_decide (url ∉ visited_urls self) in
      is_same_domain && is_http_or_https && is_not_visited
  | Raise _ => false
  end.

(** Lines 57 to 60: [for email in new_emails: ...]. *)
Fixpoint add_emails (self : EmailScraper) (new_emails : list string)
  : EmailScraper * list Event :=
  match new_emails with
  | [] => (self, [])
  | email :: rest =>
      if decide (email ∉ emails_found self) then
        let '(self', out) :=
          add_emails (set_emails_found ({[ email ]} ∪ emails_found self) self)
                     rest in
        (self', Status ("Found Email: " +:+ email) :: out)
      else add_emails self rest
  end.

(** Lines 63 to 66: [for link in soup.find_all('a', href=True): ...].
    The second component is the text of the exception when [urljoin]
    raised, which ends the loop. *)
Fixpoint add_links (self : EmailScraper) (hrefs : list string)
  : EmailScraper * option string :=
  match hrefs with
  | [] => (self, None)
  | href :: rest =>
      match urljoin (base_url self) href with
      | Raise e => (self, Some e)
      | Ok absolute_url =>
          if _is_valid_url self absolute_url then
            add_links (set_urls_to_visit
                         ({[ absolute_url ]} ∪ urls_to_visit self) self) rest
          else add_links self rest
      end
  end.

Definition _crawl_page (self : EmailScraper) (url : string)
  : EmailScraper * list Event :=
  let visiting := [Status ("Visiting: " +:+ url); Get url] in
  match fetch url with
  | RequestException e =>
      (self,
       visiting ++ [Status ("Error visiting " +:+ url +:+ ": " +:+ e)])
  | OtherException e =>
      (self, visiting ++ [Status ("An unexpected error occurred: " +:+ e)])
  | Document new_emails hrefs =>
      let '(self, found) := add_emails self new_emails in
      let '(self, raised) := add_links self hrefs in
      (self,
       visiting ++ found ++
       match raised with
       | Some e => [Status ("An unexpected error occurred: " +:+ e)]
       | None => []
       end)
  end.

Definition stop_scraping (self : EmailScraper) : EmailScraper :=
  set_is_scraping false self.

(** The state of the [while] loop of [start_scraping]: [self], the local
    [pages_crawled], and the number of iterations begun so far. *)
Record Loop := {
  scraper : EmailScraper;
  pages_crawled : nat;
  iteration : nat;
}.

(** A [stop_scraping()] of another thread takes effect before the loop
    condition is read. *)
Definition poll (l : Loop) : Loop :=
  if stop_requested (iteration l)
  then {| scraper := stop_scraping (scraper l);
          pages_crawled := pages_crawled l; iteration := iteration l |}
  else l.

(** Line 76, the loop condition. *)
Definition loop_condition (l : Loop) : bool :=
  bool_decide (urls_to_visit (scraper l) ≠ ∅) &&
  bool_decide (pages_crawled l < max_pages (scraper l)) &&
  is_scraping (scraper l).

(** Lines 77 to 79: [self] afterwards, the popped URL, and whether it
    had not been visited before, in which case it now is in
    [visited_urls] and line 80 crawls it. *)
Definition dequeue (l : Loop) : EmailScraper * string * bool :=
  let current_url := set_pop (iteration l) (urls_to_visit (scraper l)) in
  let popped :=
    set_urls_to_visit (urls_to_visit (scraper l) ∖ {[ current_url ]})
                      (scraper l) in
  if decide (current_url ∉ visited_urls popped) then
    (set_visited_urls ({[ current_url ]} ∪ visited_urls popped) popped,
     current_url, true)
  else (popped, current_url, false).

(** Lines 77 to 82, one iteration of the loop. *)
Definition loop_body (l : Loop) : Loop * list Event :=
  let '(marked, current_url, fresh) := dequeue l in
  if fresh then
    let '(crawled, out) := _crawl_page marked current_url in
    ({| scraper := crawled; pages_crawled := S (pages_crawled l);
        iteration := S (iteration l) |},
     out ++ [Sleep])
  else
    ({| scraper := marked; pages_crawled := pages_crawled l;
        iteration := S (iteration l) |}, []).

(** At most [n] iterations of the loop, stopping as soon as the condition
    fails. *)
Fixpoint iterations (n : nat) (l : Loop) : Loop * list Event :=
  match n with
  | 0 => (l, [])
  | S n' =>
      let l := poll l in
      if loop_condition l then
        let '(l1, out1) := loop_body l in
        let '(l2, out2) := iterations n' l1 in
        (l2, out1 ++ out2)
      else (l, [])
  end.

(** Lines 84 to 86. *)
Definition finish (self : EmailScraper) : EmailScraper * list Event :=
  let self := set_is_scraping false self in
  (self, [Status "Scraping finished."; Result (set_list (emails_found self))]).

(** Line 75: the loop is entered with [pages_crawled = 0]. *)
Definition loop_entry (self : EmailScraper) : Loop :=
  {| scraper := self; pages_crawled := 0; iteration := 0 |}.

(** [start_scraping], allowed [fuel] iterations of the loop: [self]
    afterwards, the final [pages_crawled], and the trace; [None] when the
    loop has not ended by then. *)
Definition start_scraping (fuel : nat) (self : EmailScraper)
  : option (EmailScraper * nat * list Event) :=
  let '(l, out) := iterations fuel (loop_entry self) in
  let l := poll l in
  if loop_condition l then None
  else
    let '(self', out') := finish (scraper l) in
    Some (self', pages_crawled l, out ++ out').

End Engine.

(** ** [EmailScraperUI] *)

(** [sorted(emails)]: the list in ascending order of Python's string
    comparison.  The order is total and antisymmetric, so every sorting
    algorithm returns the same list. *)
Definition sorted (emails : list string) : list string :=
  merge_sort String.le emails.

(** The widgets the callbacks write to: the text of [status_label], the
    text of [results_textbox], and whether [extract_button] is in state
    ["normal"]. *)
Record EmailScraperUI := {
  status_label : string;
  results_textbox : string;
  extract_button : bool;
}.

Definition update_status (message : string) (ui : EmailScraperUI)
  : EmailScraperUI :=
  {| status_label := message; results_textbox := results_textbox ui;
     extract_button := extract_button ui |}.

(** The lines [display_results] inserts at ["end"], one per address. *)
Definition email_lines (emails : list string) : string :=
  foldl (λ text email, text +:+ email +:+ Str.newline) "" emails.

Definition display_results (emails : list string) (ui : EmailScraperUI)
  : EmailScraperUI :=
  {| status_label := status_label ui;
     results_textbox :=
       if bool_decide (emails ≠ []) then
         ("Found " +:+ pretty (length emails) +:+ " unique email(s):" +:+
          Str.newline +:+ Str.newline) +:+ email_lines (sorted emails)
       else "No emails found.";
     extract_button := true |}.

(** Lines 137 to 146 of [start_extraction]: the URL handed to
    [run_scraper], or [None] when the entry is blank. *)
Definition start_extraction (entry : string) : option string :=
  let domain := Str.strip_space entry in
  if bool_decide (domain = "") then None
  else if negb (Str.startswith "http://" domain ||
                Str.startswith "https://" domain)
  then Some ("https://" +:+ domain)
  else Some domain.

(** The callbacks [run_scraper] passes to the engine. *)
Definition deliver (ui : EmailScraperUI) (ev : Event) : EmailScraperUI :=
  match ev with
  | Status message => update_status message ui
  | Result emails => display_results emails ui
  | Get _ | Sleep => ui
  end.

(** [run_scraper]: the trace of the run and the widgets at its end. *)
Definition run_scraper `{W : World} (fuel : nat) (base_url : string)
    (ui : EmailScraperUI)
  : result (option (EmailScraper * list Event * EmailScraperUI)) :=
  match __init__ base_url with
  | Raise e => Raise e
  | Ok scraper =>
      Ok (match start_scraping fuel scraper with
          | None => None
          | Some (scraper, _, out) => Some (scraper, out, foldl deliver ui out)
          end)
  end.

(** ** Observations on traces *)

(** The URLs requested, in order. *)
Definition fetched (out : list Event) : list string :=
  omap (λ ev, match ev with Get url => Some url | _ => None end) out.

(** The lists handed to [result_callback], in order. *)
Definition results (out : list Event) : list (list string) :=
  omap (λ ev, match ev with Result emails => Some emails | _ => None end) out.

(** How often the status callback received [message]. *)
Definition status_count (message : string) (out : list Event) : nat :=
  length (filter (λ ev, ev = Status message) out).

(** ** A concrete world

    [urllib.parse] as modelled above, accepting every bracketed host and
    every non-ASCII netloc; [set.pop()] and [list(set)] follow the order of
    [elements]. *)
Definition py_urlparse : string → result ParseResult :=
  UrlLib.urlparse (λ _, Ok ()) (λ _, Ok ()).
Definition py_urljoin : string → string → result string :=
  UrlLib.urljoin (λ _, Ok ()) (λ _, Ok ()).

Definition first_element (X : gset string) : string :=
  default "" (head (elements X)).

Lemma first_element_elem (X : gset string) : X ≠ ∅ → first_element X ∈ X.
Proof.
  intros HX. unfold first_element.
  destruct (elements X) as [|x l] eqn:E.
  - apply elements_empty_inv in E. apply leibniz_equiv in E. done.
  - simpl. apply elem_of_elements. rewrite E. left.
Qed.

Definition py_world (web : string → Fetched) (stop : nat → bool) : World :=
  {| urlparse := py_urlparse;
     urljoin := py_urljoin;
     fetch := web;
     set_pop := λ _, first_element;
     set_pop_elem := λ _, first_element_elem;
     set_list := elements;
     set_list_perm := λ _, reflexivity _;
     stop_requested := stop |}.

(** ** Predicates used in the statements *)

(** The frontier holds no visited URL. *)
Definition frontier_fresh (self : EmailScraper) : Prop :=
  urls_to_visit self ## visited_urls self.

(** Every URL of the frontier parses, with the netloc of the seed. *)
Definition frontier_scoped `{W : World} (self : EmailScraper) : Prop :=
  ∀ url, url ∈ urls_to_visit self →
    ∃ parsed, urlparse url = Ok parsed ∧ netloc parsed = domain self.

(** The line announcing a new address. *)
Definition found_line (email : string) : Event :=
  Status ("Found Email: " +:+ email).

(** [offered self hrefs url]: the loop over [hrefs] reaches a link that
    [urljoin] resolves, against [self.base_url], to [url], and [url]
    passes the check. *)
Definition offered `{W : World} (self : EmailScraper) (hrefs : list string)
    (url : string) : Prop :=
  ∃ done_ href rest,
    hrefs = done_ ++ href :: rest ∧
    (∀ h, h ∈ done_ → ∃ u, urljoin (base_url self) h = Ok u) ∧
    urljoin (base_url self) href = Ok url ∧
    _is_valid_url self url = true.


(** ** Example sites and runs *)

(** The widgets as [start_extraction] leaves them when the thread starts. *)
Definition started : EmailScraperUI :=
  {| status_label := "Starting scraper..."; results_textbox := "";
     extract_button := false |}.

(** What [__init__] builds for the seed [https://example.com/]. *)
Definition example_scraper : EmailScraper :=
  {| base_url := "https://example.com/"; domain := "example.com";
     emails_found := ∅; visited_urls := ∅;
     urls_to_visit := {[ "https://example.com/" ]};
     is_scraping := true; max_pages := 50 |}.

(** A site of three pages, one of which answers with status 500, with
    links that leave the seed's netloc. *)
Definition small_site (url : string) : Fetched :=
  if bool_decide (url = "https://example.com/") then
    Document ["a@b.com"; "x@y.org"; "a@b.com"]
             ["/team"; "http://other-domain.com/x";
              "https://example.com:8080/x"; "/down"]
  else if bool_decide (url = "https://example.com/team") then
    Document ["x@y.org"; "A@B.COM"] ["https://example.com/"]
  else if bool_decide (url = "https://example.com/down") then
    RequestException
      ("500 Server Error: Internal Server Error for url: " +:+
       "https://example.com/down")
  else RequestException "404 Client Error: Not Found".

(** A site whose page [/a/b.html] carries the relative link [c.html]. *)
Definition nested_site (url : string) : Fetched :=
  if bool_decide (url = "https://example.com/") then
    Document [] ["/a/b.html"]
  else if bool_decide (url = "https://example.com/a/b.html") then
    Document [] ["c.html"]
  else RequestException "404 Client Error: Not Found".

(** A site on which every page links to a page not seen before. *)
Definition endless_site (url : string) : Fetched :=
  Document [] [url +:+ "a"].

(** A page whose first link is one on which [urljoin] raises. *)
Definition broken_link_site (url : string) : Fetched :=
  Document ["a@b.com"] ["https://[::1"; "/team"].

(** A site on which every request fails. *)
Definition dead_site (url : string) : Fetched :=
  RequestException "Connection refused".

Definition never : nat → bool := λ _, false.

Definition small_world : World := py_world small_site never.
Definition nested_world : World := py_world nested_site never.
Definition endless_world : World := py_world endless_site never.
Definition dead_world : World := py_world dead_site never.
Definition broken_link_world : World := py_world broken_link_site never.

(** The loop of a run on [small_site] at the moment the frontier is down
    to the page that answers with status 500. *)
Definition before_failure : Loop :=
  {| scraper :=
       {| base_url := "https://example.com/"; domain := "example.com";
          emails_found := {[ "a@b.com"; "x@y.org"; "A@B.COM" ]};
          visited_urls :=
            {[ "https://example.com/"; "https://example.com/team" ]};
          urls_to_visit := {[ "https://example.com/down" ]};
          is_scraping := true; max_pages := 50 |};
     pages_crawled := 2;
     iteration := 2 |}.

(** ** [requests]: the answer to a request

    Line 50 calls [requests.get], which follows redirections, and line 51
    calls [raise_for_status] on the response.  [requests] is not part of
    the repository; [raise_for_status] below is its
    [Response.raise_for_status]. *)

(** What [requests.get] gives.  [NoAnswer e]: it raised a
    [RequestException] with [str(e) = e] (no connection, a timeout, too
    many redirections).  [Response final_url status_code reason new_emails
    hrefs]: a response with [response.url = final_url], that status and
    reason phrase, and a body holding these addresses and links. *)
Inductive Answer :=
| NoAnswer (e : string)
| Response (final_url : string) (status_code : nat) (reason : string)
           (new_emails hrefs : list string).

(** The text of the [HTTPError] that [raise_for_status] raises, if it
    raises. *)
Definition raise_for_status (final_url : string) (status_code : nat)
    (reason : string) : option string :=
  if (400 <=? status_code) && (status_code <? 500) then
    Some (pretty status_code +:+ " Client Error: " +:+ reason +:+
          " for url: " +:+ final_url)
  else if (500 <=? status_code) && (status_code <? 600) then
    Some (pretty status_code +:+ " Server Error: " +:+ reason +:+
          " for url: " +:+ final_url)
  else None.

(** What lines 50 to 63 obtain from an answer. *)
Definition received (answer : Answer) : Fetched :=
  match answer with
  | NoAnswer e => RequestException e
  | Response final_url status_code reason new_emails hrefs =>
      match raise_for_status final_url status_code reason with
      | Some e => RequestException e
      | None => Document new_emails hrefs
      end
  end.

(** The request was not answered, or was answered with a status from 400
    to 599. *)
Definition failed (answer : Answer) : Prop :=
  match answer with
  | NoAnswer _ => True
  | Response _ status_code _ _ _ => 400 ≤ status_code < 600
  end.

(** ** [_find_emails_on_page]

    The pattern of [email_regex] is a sequence of character classes, each
    taken once or repeated greedily at least a given number of times;
    [Re] models [re.findall] for such patterns, with the backtracking of
    Python's matcher: a repetition first takes all the characters it can
    and gives them back one by one until the rest of the pattern matches. *)

Module Re.

Inductive piece :=
| Exactly (c : ascii → bool)             (** one character of the class *)
| AtLeast (m : nat) (c : ascii → bool).  (** [[c]{m,}]; [[c]+] is m = 1 *)

(** The number of leading characters of [s] that are in the class. *)
Fixpoint run (c : ascii → bool) (s : string) : nat :=
  match s with
  | "" => 0
  | String a s' => if c a then S (run c s') else 0
  end.

(** The first count, from [k] down to [lo], for which [rest] succeeds. *)
Fixpoint first_down (rest : nat → option nat) (lo k : nat) : option nat :=
  if k <? lo then None
  else match rest k with
       | Some r => Some r
       | None => match k with
                 | 0 => None
                 | S k' => first_down rest lo k'
                 end
       end.

(** The length of the match of [pattern] that starts at the beginning of
    [s], if there is one. *)
Fixpoint match_here (pattern : list piece) (s : string) : option nat :=
  match pattern with
  | [] => Some 0
  | Exactly c :: rest =>
      match s with
      | String a s' => if c a then S <$> match_here rest s' else None
      | "" => None
      end
  | AtLeast m c :: rest =>
      first_down (λ k, Nat.add k <$> match_here rest (Str.drop k s))
                 m (run c s)
  end.

(** [re.findall(pattern, s)] with [skip] characters of [s] still covered by
    the previous match: the search for the next match resumes where the
    previous one ended. *)
Fixpoint findall_from (pattern : list piece) (skip : nat) (s : string)
  : list string :=
  match s with
  | "" =>
      match skip, match_here pattern "" with
      | 0, Some _ => [""]
      | _, _ => []
      end
  | String a s' =>
      match skip with
      | S skip' => findall_from pattern skip' s'
      | 0 =>
          match match_here pattern s with
          | Some len => Str.take len s :: findall_from pattern (pred len) s'
          | None => findall_from pattern 0 s'
          end
      end
  end.

Definition findall (pattern : list piece) (s : string) : list string :=
  findall_from pattern 0 s.

End Re.

Definition is_alnum (a : ascii) : bool :=
  Str.is_lower a || Str.is_upper a || Str.is_digit a.

(** [[a-zA-Z0-9._%+-]] *)
Definition local_char (a : ascii) : bool :=
  is_alnum a || bool_decide (a ∈ ["."; "_"; "%"; "+"; "-"]%char).

(** [[a-zA-Z0-9.-]] *)
Definition domain_char (a : ascii) : bool :=
  is_alnum a || bool_decide (a ∈ ["."; "-"]%char).

(** [r'[a-zA-Z0-9._%+-]+@[a-zA-Z0-9.-]+\.[a-zA-Z]{2,}'] *)
Definition email_regex : list Re.piece :=
  [Re.AtLeast 1 local_char;
   Re.Exactly (λ a, bool_decide (a = "@"%char));
   Re.AtLeast 1 domain_char;
   Re.Exactly (λ a, bool_decide (a = "."%char));
   Re.AtLeast 2 Str.is_ascii_alpha].

(** [_find_emails_on_page], on the text [soup.get_text()] returns. *)
Definition _find_emails_on_page (page_text : string) : list string :=
  Re.findall email_regex page_text.

(** ** The rest of [EmailScraperUI] *)

(** [sub in s] *)
Fixpoint has_substring (sub s : string) : bool :=
  Str.startswith sub s ||
  match s with
  | "" => false
  | String _ s' => has_substring sub s'
  end.

(** The widgets as [EmailScraperUI.__init__] creates them. *)
Definition created : EmailScraperUI :=
  {| status_label := "Enter a domain and click 'Extract Emails'";
     results_textbox := ""; extract_button := true |}.

(** What [start_extraction] does to the widgets: lines 138 to 140 for a
    blank entry, lines 149 to 151 otherwise. *)
Definition start_extraction_widgets (entry : string) (ui : EmailScraperUI)
  : EmailScraperUI :=
  match start_extraction entry with
  | None =>
      {| status_label := "Please enter a domain.";
         results_textbox := results_textbox ui;
         extract_button := extract_button ui |}
  | Some _ =>
      {| status_label := "Starting scraper..."; results_textbox := "";
         extract_button := false |}
  end.

(** [check_thread], with [alive] the value of
    [self.scraper_thread and self.scraper_thread.is_alive()]: the widgets
    afterwards, and whether the check is scheduled again. *)
Definition check_thread (alive : bool) (ui : EmailScraperUI)
  : EmailScraperUI * bool :=
  if alive then (ui, true)
  else
    let ui := {| status_label := status_label ui;
                 results_textbox := results_textbox ui;
                 extract_button := true |} in
    if negb (has_substring "Scraping finished" (status_label ui))
    then (update_status "Scraping finished or stopped." ui, false)
    else (ui, false).

(** A click on the button followed to its end: [start_extraction], the
    thread running [run_scraper] (its callbacks write the widgets), and the
    checks of [check_thread], which change nothing while the thread is
    alive and run a last time once it has ended, normally or by the
    exception of [EmailScraper.__init__].  [None] when [fuel] iterations
    did not end the loop. *)
Definition extraction `{W : World} (fuel : nat) (entry : string)
    (ui : EmailScraperUI) : option EmailScraperUI :=
  let clicked := start_extraction_widgets entry ui in
  match start_extraction entry with
  | None => Some clicked
  | Some base_url =>
      match run_scraper fuel base_url clicked with
      | Raise _ => Some (check_thread false clicked).1
      | Ok None => None
      | Ok (Some (_, _, ui')) => Some (check_thread false ui').1
      end
  end.

(** ** More observations and predicates *)

(** The number of pauses [time.sleep(1)]. *)
Definition sleeps (out : list Event) : nat :=
  length (filter (λ ev, ev = Sleep) out).

(** [matches pattern w]: the whole of [w] is matched by [pattern]. *)
Fixpoint matches (pattern : list Re.piece) (w : string) : Prop :=
  match pattern with
  | [] => w = ""
  | Re.Exactly c :: rest =>
      ∃ a w', w = String a w' ∧ c a = true ∧ matches rest w'
  | Re.AtLeast m c :: rest =>
      ∃ u v, w = u +:+ v ∧ Str.forallb c u = true ∧
             m ≤ String.length u ∧ matches rest v
  end.

(** [local@domain.tld] with the three parts as the pattern wants them. *)
Definition email_shaped (a : string) : Prop :=
  ∃ local domain tld,
    a = local +:+ "@" +:+ domain +:+ "." +:+ tld ∧
    1 ≤ String.length local ∧ Str.forallb local_char local = true ∧
    1 ≤ String.length domain ∧ Str.forallb domain_char domain = true ∧
    2 ≤ String.length tld ∧ Str.forallb Str.is_ascii_alpha tld = true.

(** Whether [s] ends with a character of the class. *)
Fixpoint ends_in (c : ascii → bool) (s : string) : bool :=
  match s with
  | "" => false
  | String a "" => c a
  | String _ s' => ends_in c s'
  end.

(** [weave gaps found]: the text made of the gaps with the found pieces
    between them, in order. *)
Fixpoint weave (gaps found : list string) : string :=
  match gaps, found with
  | g :: gaps', m :: found' => g +:+ m +:+ weave gaps' found'
  | g :: _, [] => g
  | [], _ => ""
  end.

(** [links_to self page url]: [page] is a document, the loop of
    [_crawl_page] over its links reaches a link that [urljoin] resolves,
    against [self.base_url], to [url], and [url] parses with the netloc
    [self.domain] and the scheme [http] or [https]. *)
Definition links_to `{W : World} (self : EmailScraper) (page url : string)
  : Prop :=
  ∃ new_emails hrefs done_ href rest parsed,
    fetch page = Document new_emails hrefs ∧
    hrefs = done_ ++ href :: rest ∧
    (∀ h, h ∈ done_ → ∃ u, urljoin (base_url self) h = Ok u) ∧
    urljoin (base_url self) href = Ok url ∧
    urlparse url = Ok parsed ∧ netloc parsed = domain self ∧
    (scheme parsed = "http" ∨ scheme parsed = "https").

(** Every URL of the frontier is the seed or a link of a visited page. *)
Definition frontier_linked `{W : World} (self : EmailScraper) : Prop :=
  ∀ url, url ∈ urls_to_visit self →
    url = base_url self ∨
    ∃ page, page ∈ visited_urls self ∧ links_to self page url.

(** The seed and every link of a visited page are visited or wait in the
    frontier. *)
Definition links_followed `{W : World} (self : EmailScraper) : Prop :=
  base_url self ∈ visited_urls self ∪ urls_to_visit self ∧
  ∀ page url, page ∈ visited_urls self → links_to self page url →
    url ∈ visited_urls self ∪ urls_to_visit self.

(** [polite pending out]: in [out] every request is followed by a pause
    before the next request and before the end; [pending] tells whether a
    request is waiting for its pause. *)
Fixpoint polite (pending : bool) (out : list Event) : bool :=
  match out with
  | [] => negb pending
  | Get _ :: rest => negb pending && polite true rest
  | Sleep :: rest => polite false rest
  | _ :: rest => polite pending rest
  end.

(** ** More example sites *)

(** A site whose pages are given by their text. *)
Definition text_site (url : string) : Fetched :=
  if bool_decide (url = "https://example.com/") then
    Document (_find_emails_on_page "Write to a@b.com, or to x@y.org.")
             ["/more"]
  else if bool_decide (url = "https://example.com/more") then
    Document (_find_emails_on_page "Sales: A@B.COM (a@b.com). v1.2@3") []
  else RequestException "404 Client Error: Not Found".

(** A page that cannot be parsed. *)
Definition unparsable_site (url : string) : Fetched :=
  OtherException "maximum recursion depth exceeded".

(** A page whose second link is one on which [urljoin] raises. *)
Definition late_broken_site (url : string) : Fetched :=
  Document ["a@b.com"] ["/team"; "https://[::1"; "/more"].

Definition text_world : World := py_world text_site never.
Definition late_broken_world : World := py_world late_broken_site never.
Definition unparsable_world : World := py_world unparsable_site never.

(** A server that answers the seed with status 300 and a page of
    choices. *)
Definition choices_site (url : string) : Answer :=
  if bool_decide (url = "https://example.com/") then
    Response "https://example.com/" 300 "Multiple Choices"
             ["a@b.com"] ["/en"; "/fr"]
  else NoAnswer "Connection refused".

Definition choices_world : World :=
  py_world (λ url, received (choices_site url)) never.

(** A stop requested while the second page is crawled. *)
Definition stopping_world : World :=
  py_world small_site (λ i, bool_decide (i = 2)).

(** * Properties *)

(** ** Strings *)

Lemma app_String a s t : String a s +:+ t = String a (s +:+ t).
Proof. reflexivity. Qed.

Lemma app_empty_l s : "" +:+ s = s.
Proof. reflexivity. Qed.

Lemma app_empty_r s : s +:+ "" = s.
Proof. induction s as [|a s IH]; [done|]. by rewrite app_String, IH. Qed.

Lemma app_assoc_string s t u : (s +:+ t) +:+ u = s +:+ (t +:+ u).
Proof. induction s as [|a s IH]; [done|]. by rewrite !app_String, IH. Qed.

Lemma length_app_string s t :
  String.length (s +:+ t) = String.length s + String.length t.
Proof. induction s as [|a s IH]; [done|]. rewrite app_String. simpl. lia. Qed.

Lemma take_drop_string n s : Str.take n s +:+ Str.drop n s = s.
Proof.
  revert s. induction n as [|n IH]; intros [|a s]; try done.
  simpl. by rewrite app_String, IH.
Qed.

Lemma length_take_string n s :
  n ≤ String.length s → String.length (Str.take n s) = n.
Proof.
  revert s. induction n as [|n IH]; intros [|a s] Hn; simpl in *; try done.
  - lia.
  - rewrite IH; lia.
Qed.

Lemma length_drop_string n s :
  String.length (Str.drop n s) = String.length s - n.
Proof. revert s. induction n as [|n IH]; intros [|a s]; simpl; auto. Qed.

Lemma take_add_string n m s :
  Str.take (n + m) s = Str.take n s +:+ Str.take m (Str.drop n s).
Proof.
  revert s. induction n as [|n IH]; intros s; [done|].
  destruct s as [|a s]; simpl.
  - by destruct m.
  - by rewrite app_String, IH.
Qed.

Lemma take_app_length s t : Str.take (String.length s) (s +:+ t) = s.
Proof. induction s as [|a s IH]; simpl; [by destruct t|]. by rewrite IH. Qed.

Lemma drop_app_length s t : Str.drop (String.length s) (s +:+ t) = t.
Proof. induction s as [|a s IH]; simpl; [by destruct t|done]. Qed.

Lemma drop_app_add s t n :
  Str.drop (String.length s + n) (s +:+ t) = Str.drop n t.
Proof. induction s as [|a s IH]; simpl; [done|]. by rewrite IH. Qed.

Lemma contains_app c s t :
  Str.contains c (s +:+ t) = Str.contains c s || Str.contains c t.
Proof.
  induction s as [|a s IH]; [done|]. rewrite app_String. simpl.
  by destruct (decide (a = c)).
Qed.

Lemma forallb_app_string p s t :
  Str.forallb p (s +:+ t) = Str.forallb p s && Str.forallb p t.
Proof.
  induction s as [|a s IH]; [done|]. rewrite app_String. simpl.
  rewrite IH. by destruct (p a).
Qed.

(** ** Answers *)

Lemma received_failed answer :
  failed answer → ∃ e, received answer = RequestException e.
Proof.
  destruct answer as [e|final_url status_code reason new_emails hrefs].
  { by exists e. }
  intros [Hlo Hhi]. unfold received, raise_for_status.
  destruct (status_code <? 500) eqn:H5.
  - rewrite (proj2 (Nat.leb_le 400 status_code)) by done. by eexists.
  - rewrite andb_false_r.
    rewrite (proj2 (Nat.leb_le 500 status_code))
      by (apply Nat.ltb_ge in H5; lia).
    rewrite (proj2 (Nat.ltb_lt status_code 600)) by done. by eexists.
Qed.

Lemma received_parsed final_url status_code reason new_emails hrefs :
  ¬ (400 ≤ status_code < 600) →
  received (Response final_url status_code reason new_emails hrefs) =
  Document new_emails hrefs.
Proof.
  intros Hout. unfold received, raise_for_status.
  destruct (400 <=? status_code) eqn:H4, (status_code <? 500) eqn:H5,
           (500 <=? status_code) eqn:H6, (status_code <? 600) eqn:H7;
    try done;
    apply Nat.leb_le in H4 || apply Nat.leb_gt in H4;
    apply Nat.ltb_lt in H5 || apply Nat.ltb_ge in H5;
    apply Nat.leb_le in H6 || apply Nat.leb_gt in H6;
    apply Nat.ltb_lt in H7 || apply Nat.ltb_ge in H7;
    exfalso; lia.
Qed.

(** ** The engine *)

Lemma found_line_inj a b : found_line a = found_line b → a = b.
Proof. unfold found_line. intros H. injection H as H. by simplify_eq. Qed.

Lemma status_count_nil m : status_count m [] = 0.
Proof. done. Qed.

Lemma status_count_app m out1 out2 :
  status_count m (out1 ++ out2) = status_count m out1 + status_count m out2.
Proof. unfold status_count. by rewrite filter_app, length_app. Qed.

Lemma status_count_cons_ne m ev out :
  ev ≠ Status m → status_count m (ev :: out) = status_count m out.
Proof. intros. unfold status_count. by rewrite filter_cons_False. Qed.

Lemma status_count_cons_eq m out :
  status_count m (Status m :: out) = S (status_count m out).
Proof. unfold status_count. by rewrite filter_cons_True. Qed.

Lemma status_count_zero m out : status_count m out = 0 → Status m ∉ out.
Proof.
  induction out as [|ev out IH]; intros Hc.
  - apply not_elem_of_nil.
  - destruct (decide (ev = Status m)) as [->|Hne].
    + by rewrite status_count_cons_eq in Hc.
    + rewrite status_count_cons_ne in Hc by done.
      apply not_elem_of_cons. split; [congruence|auto].
Qed.

Lemma fetched_app out1 out2 :
  fetched (out1 ++ out2) = fetched out1 ++ fetched out2.
Proof. apply omap_app. Qed.

Lemma results_app out1 out2 :
  results (out1 ++ out2) = results out1 ++ results out2.
Proof. apply omap_app. Qed.

Section Pages.
Context `{W : World}.

(** *** The loop over the addresses of a page *)

Lemma add_emails_fields self l :
  let self' := (add_emails self l).1 in
  base_url self' = base_url self ∧ domain self' = domain self ∧
  visited_urls self' = visited_urls self ∧
  urls_to_visit self' = urls_to_visit self ∧
  is_scraping self' = is_scraping self ∧ max_pages self' = max_pages self.
Proof.
  revert self. induction l as [|a l IH]; intros self; simpl; [done|].
  case_decide; [|apply IH].
  specialize (IH (set_emails_found ({[a]} ∪ emails_found self) self)).
  destruct (add_emails _ l). apply IH.
Qed.

Lemma add_emails_found self l :
  emails_found (add_emails self l).1 = emails_found self ∪ list_to_set l.
Proof.
  revert self. induction l as [|a l IH]; intros self; simpl.
  { set_solver. }
  case_decide as Ha.
  - specialize (IH (set_emails_found ({[a]} ∪ emails_found self) self)).
    destruct (add_emails _ l). simpl in *. rewrite IH. set_solver.
  - rewrite IH. set_solver.
Qed.

Lemma add_emails_only_status self l :
  fetched (add_emails self l).2 = [] ∧ results (add_emails self l).2 = [].
Proof.
  revert self. induction l as [|a l IH]; intros self; simpl; [done|].
  case_decide; [|apply IH].
  specialize (IH (set_emails_found ({[a]} ∪ emails_found self) self)).
  destruct (add_emails _ l). apply IH.
Qed.

(** Every line sent by the loop announces an address. *)
Lemma add_emails_lines self l ev :
  ev ∈ (add_emails self l).2 → ∃ a, ev = found_line a.
Proof.
  revert self. induction l as [|a l IH]; intros self; simpl.
  { by intros ?%elem_of_nil. }
  case_decide; [|apply IH].
  specialize (IH (set_emails_found ({[a]} ∪ emails_found self) self)).
  destruct (add_emails _ l). simpl in *.
  intros [->|?]%elem_of_cons; eauto.
Qed.

(** An address is announced once if it is on the page and new, and not at
    all otherwise. *)
Lemma add_emails_count self l a :
  status_count ("Found Email: " +:+ a) (add_emails self l).2 =
  if decide (a ∈ l ∧ a ∉ emails_found self) then 1 else 0.
Proof.
  revert self. induction l as [|b l IH]; intros self; cbn [add_emails].
  { rewrite decide_False; [done|]. intros [[]%elem_of_nil _]. }
  destruct (decide (b ∉ emails_found self)) as [Hb|Hb].
  - specialize (IH (set_emails_found ({[b]} ∪ emails_found self) self)).
    destruct (add_emails _ l) as [self' out]. cbn [fst snd] in *.
    destruct (decide (b = a)) as [->|Hne].
    + rewrite status_count_cons_eq, IH.
      rewrite decide_False by set_solver.
      rewrite decide_True; [done|]. split; [left|done].
    + rewrite status_count_cons_ne, IH.
      2:{ intros E. apply Hne. by apply found_line_inj. }
      apply decide_ext. set_solver.
  - rewrite IH. apply decide_ext. set_solver.
Qed.

(** The line for an address is sent when the loop reaches its first
    occurrence on the page: the addresses before it are handled as if
    the page ended there, and the rest with the address recorded. *)
Lemma add_emails_first_occurrence self l1 a l2 :
  a ∉ l1 → a ∉ emails_found self →
  let before := add_emails self l1 in
  let after :=
    add_emails
      (set_emails_found ({[a]} ∪ emails_found before.1) before.1) l2 in
  add_emails self (l1 ++ a :: l2) =
    (after.1, before.2 ++ found_line a :: after.2) ∧
  (found_line a ∉ snd before) ∧ (found_line a ∉ snd after).
Proof.
  intros Hl1 Ha. simpl.
  assert (found_line a ∉ (add_emails self l1).2) as Hb.
  { apply status_count_zero. rewrite add_emails_count.
    apply decide_False. tauto. }
  assert (∀ s, a ∈ emails_found s → found_line a ∉ (add_emails s l2).2)
    as Hafter.
  { intros s Hs. apply status_count_zero. rewrite add_emails_count.
    apply decide_False. tauto. }
  split; [|split; [done|apply Hafter; simpl; set_solver]].
  clear Hb Hafter. revert self Ha.
  induction l1 as [|b l1 IH]; intros self Ha; simpl.
  - rewrite decide_True by done.
    by destruct (add_emails _ l2).
  - apply not_elem_of_cons in Hl1 as [Hne Hl1].
    case_decide as Hb.
    + specialize (IH Hl1 (set_emails_found ({[b]} ∪ emails_found self) self)).
      rewrite IH by (simpl; set_solver).
      by destruct (add_emails _ l1).
    + by rewrite (IH Hl1 self Ha).
Qed.

End Pages.

Section Admission.
Context `{W : World}.

(** *** The admission check *)

Lemma _is_valid_url_true self url :
  _is_valid_url self url = true ↔
  ∃ parsed, urlparse url = Ok parsed ∧ netloc parsed = domain self ∧
            (scheme parsed = "http" ∨ scheme parsed = "https") ∧
            url ∉ visited_urls self.
Proof.
  unfold _is_valid_url. destruct (urlparse url) as [parsed|e].
  - rewrite !andb_true_iff, !bool_decide_eq_true.
    rewrite !elem_of_cons, elem_of_nil. split.
    + intros [[? [?|[?|[]]]] ?]; exists parsed; auto.
    + intros (p & [= <-] & ? & [?|?] & ?); auto.
  - split; [done|]. by intros (? & ? & _).
Qed.

(** The check reads only [domain] and [visited_urls]. *)
Lemma _is_valid_url_ext self self' url :
  domain self' = domain self → visited_urls self' = visited_urls self →
  _is_valid_url self' url = _is_valid_url self url.
Proof. unfold _is_valid_url. by intros -> ->. Qed.

(** *** The loop over the links of a page *)

Lemma add_links_fields self hrefs :
  let self' := (add_links self hrefs).1 in
  base_url self' = base_url self ∧ domain self' = domain self ∧
  emails_found self' = emails_found self ∧
  visited_urls self' = visited_urls self ∧
  is_scraping self' = is_scraping self ∧ max_pages self' = max_pages self.
Proof.
  revert self. induction hrefs as [|href hrefs IH]; intros self; simpl; [done|].
  destruct (urljoin _ _) as [absolute_url|e]; [|done].
  destruct (_is_valid_url _ _); [|apply IH].
  apply (IH (set_urls_to_visit _ self)).
Qed.

(** A link on which [urljoin] raises ends the loop: the links after it are
    not looked at. *)
Lemma add_links_raises self href rest e :
  urljoin (base_url self) href = Raise e →
  add_links self (href :: rest) = (self, Some e).
Proof. intros Hj. simpl. by rewrite Hj. Qed.

Lemma offered_nil self url : ¬ offered self [] url.
Proof. intros (d & h & r & E & _). by destruct d. Qed.

Lemma offered_cons self href hrefs url :
  offered self (href :: hrefs) url ↔
  (urljoin (base_url self) href = Ok url ∧ _is_valid_url self url = true) ∨
  ((∃ u, urljoin (base_url self) href = Ok u) ∧ offered self hrefs url).
Proof.
  split.
  - intros (d & h & r & E & Hd & Hj & Hv).
    destruct d as [|h0 d]; simplify_eq/=; [by left|].
    right. split; [apply Hd; left|].
    exists d, h, r. split; [done|]. split; [|done].
    intros h' ?. apply Hd. by right.
  - intros [[Hj Hv]|[Hu (d & h & r & -> & Hd & Hj & Hv)]].
    + exists [], href, hrefs. split; [done|]. split; [|done].
      by intros h ?%elem_of_nil.
    + exists (href :: d), h, r. split; [done|]. split; [|done].
      intros h' [->|?]%elem_of_cons; auto.
Qed.

Lemma offered_ext self self' hrefs url :
  base_url self' = base_url self → domain self' = domain self →
  visited_urls self' = visited_urls self →
  offered self' hrefs url ↔ offered self hrefs url.
Proof.
  intros Hb Hd Hv. unfold offered. rewrite Hb.
  by rewrite (_is_valid_url_ext self self').
Qed.

(** The frontier only grows, and only by URLs that some link of the page
    resolves to, against the seed, and that pass the check. *)
Lemma add_links_frontier self hrefs url :
  url ∈ urls_to_visit (add_links self hrefs).1 ↔
  url ∈ urls_to_visit self ∨ offered self hrefs url.
Proof.
  revert self. induction hrefs as [|href hrefs IH]; intros self; simpl.
  { pose proof (offered_nil self url). tauto. }
  rewrite offered_cons.
  destruct (urljoin (base_url self) href) as [absolute_url|e] eqn:Hjoin.
  - destruct (_is_valid_url self absolute_url) eqn:Hvalid.
    + rewrite IH, offered_ext by done. simpl.
      rewrite elem_of_union, elem_of_singleton. split.
      * intros [[->|?]|?]; eauto.
      * intros [?|[[[= ->] _]|[_ ?]]]; auto.
    + rewrite IH. split.
      * intros [?|?]; eauto.
      * intros [?|[[[= ->] ?]|[_ ?]]]; auto. congruence.
  - split; [auto|]. intros [?|[[? _]|[[u ?] _]]]; [done|congruence..].
Qed.

Lemma add_links_mono self hrefs :
  urls_to_visit self ⊆ urls_to_visit (add_links self hrefs).1.
Proof. intros url ?. apply add_links_frontier. by left. Qed.

(** A link is offered to the check as [urljoin(self.base_url, href)]. *)
Lemma add_links_new self hrefs url :
  url ∈ urls_to_visit (add_links self hrefs).1 →
  url ∉ urls_to_visit self →
  _is_valid_url self url = true ∧
  ∃ href, href ∈ hrefs ∧ urljoin (base_url self) href = Ok url.
Proof.
  intros [?|(d & h & r & -> & _ & Hj & Hv)]%add_links_frontier ?; [done|].
  split; [done|]. exists h. split; [|done].
  apply elem_of_app. right. left.
Qed.

Lemma add_links_fresh self hrefs :
  frontier_fresh self → frontier_fresh (add_links self hrefs).1.
Proof.
  unfold frontier_fresh. intros Hfresh.
  destruct (add_links_fields self hrefs) as (_ & _ & _ & -> & _).
  intros url Hin Hvis.
  destruct (decide (url ∈ urls_to_visit self)) as [?|Hnew]; [set_solver|].
  destruct (add_links_new _ _ _ Hin Hnew) as [Hvalid _].
  apply _is_valid_url_true in Hvalid as (? & _ & _ & _ & ?). done.
Qed.

Lemma add_links_scoped self hrefs :
  frontier_scoped self → frontier_scoped (add_links self hrefs).1.
Proof.
  unfold frontier_scoped. intros Hscoped url Hin.
  destruct (add_links_fields self hrefs) as (_ & -> & _).
  destruct (decide (url ∈ urls_to_visit self)) as [?|Hnew]; [auto|].
  destruct (add_links_new _ _ _ Hin Hnew) as [Hvalid _].
  apply _is_valid_url_true in Hvalid as (p & ? & ? & _). eauto.
Qed.

End Admission.

(** Lines of different kinds are different texts. *)
Ltac other_line :=
  let H := fresh in
  intros H; injection H as H; vm_compute in H; discriminate H.

Section Crawl.
Context `{W : World}.

(** *** One page *)

Lemma crawl_page_request_exception self url e :
  fetch url = RequestException e →
  _crawl_page self url =
    (self, [Status ("Visiting: " +:+ url); Get url;
            Status ("Error visiting " +:+ url +:+ ": " +:+ e)]).
Proof. intros Hfetch. unfold _crawl_page. by rewrite Hfetch. Qed.

Lemma crawl_page_document self url new_emails hrefs :
  fetch url = Document new_emails hrefs →
  let found := add_emails self new_emails in
  let linked := add_links found.1 hrefs in
  _crawl_page self url =
    (linked.1,
     [Status ("Visiting: " +:+ url); Get url] ++ found.2 ++
     match linked.2 with
     | Some e => [Status ("An unexpected error occurred: " +:+ e)]
     | None => []
     end).
Proof.
  intros Hfetch. unfold _crawl_page. rewrite Hfetch.
  destruct (add_emails self new_emails) as [self1 found]. cbn [fst snd].
  by destruct (add_links self1 hrefs) as [self2 raised].
Qed.

Lemma crawl_page_fields self url :
  let self' := (_crawl_page self url).1 in
  base_url self' = base_url self ∧ domain self' = domain self ∧
  visited_urls self' = visited_urls self ∧
  is_scraping self' = is_scraping self ∧ max_pages self' = max_pages self.
Proof.
  destruct (fetch url) as [e|e|new_emails hrefs] eqn:Hfetch.
  - by rewrite (crawl_page_request_exception _ _ _ Hfetch).
  - unfold _crawl_page. by rewrite Hfetch.
  - rewrite (crawl_page_document _ _ _ _ Hfetch). simpl.
    destruct (add_emails_fields self new_emails) as (? & ? & ? & ? & ? & ?).
    destruct (add_links_fields (add_emails self new_emails).1 hrefs)
      as (? & ? & ? & ? & ? & ?).
    repeat split; congruence.
Qed.

(** The addresses recorded are those of the page, when it is parsed. *)
Lemma crawl_page_emails self url :
  emails_found (_crawl_page self url).1 =
  emails_found self ∪
  match fetch url with
  | Document new_emails _ => list_to_set new_emails
  | _ => ∅
  end.
Proof.
  destruct (fetch url) as [e|e|new_emails hrefs] eqn:Hfetch.
  - rewrite (crawl_page_request_exception _ _ _ Hfetch). set_solver.
  - unfold _crawl_page. rewrite Hfetch. set_solver.
  - rewrite (crawl_page_document _ _ _ _ Hfetch). simpl.
    destruct (add_links_fields (add_emails self new_emails).1 hrefs)
      as (_ & _ & -> & _).
    apply add_emails_found.
Qed.

Lemma crawl_page_frontier self url u :
  u ∈ urls_to_visit (_crawl_page self url).1 ↔
  u ∈ urls_to_visit self ∨
  ∃ new_emails hrefs,
    fetch url = Document new_emails hrefs ∧ offered self hrefs u.
Proof.
  destruct (fetch url) as [e|e|new_emails hrefs] eqn:Hfetch.
  - rewrite (crawl_page_request_exception _ _ _ Hfetch). simpl.
    split; [auto|]. by intros [?|(? & ? & ? & _)].
  - unfold _crawl_page. rewrite Hfetch. simpl.
    split; [auto|]. by intros [?|(? & ? & ? & _)].
  - rewrite (crawl_page_document _ _ _ _ Hfetch). simpl.
    destruct (add_emails_fields self new_emails) as (? & ? & ? & Hf & _).
    rewrite add_links_frontier, Hf, offered_ext by done.
    split; [intros [?|?]; eauto|].
    intros [?|(? & ? & [= <- <-] & ?)]; auto.
Qed.

Lemma crawl_page_fresh self url :
  frontier_fresh self → frontier_fresh (_crawl_page self url).1.
Proof.
  unfold frontier_fresh. intros Hfresh u Hin.
  destruct (crawl_page_fields self url) as (_ & _ & -> & _).
  apply crawl_page_frontier in Hin as [?|(? & ? & _ & Hoff)]; [set_solver|].
  destruct Hoff as (_ & _ & _ & _ & _ & _ & Hv).
  apply _is_valid_url_true in Hv as (? & _ & _ & _ & ?). done.
Qed.

Lemma crawl_page_scoped self url :
  frontier_scoped self → frontier_scoped (_crawl_page self url).1.
Proof.
  unfold frontier_scoped. intros Hscoped u Hin.
  destruct (crawl_page_fields self url) as (_ & -> & _).
  apply crawl_page_frontier in Hin as [?|(? & ? & _ & Hoff)]; [auto|].
  destruct Hoff as (_ & _ & _ & _ & _ & _ & Hv).
  apply _is_valid_url_true in Hv as (p & ? & ? & _). eauto.
Qed.

(** A page is requested once, and no result is delivered while crawling. *)
Lemma crawl_page_events self url :
  fetched (_crawl_page self url).2 = [url] ∧
  results (_crawl_page self url).2 = [].
Proof.
  destruct (fetch url) as [e|e|new_emails hrefs] eqn:Hfetch.
  - by rewrite (crawl_page_request_exception _ _ _ Hfetch).
  - unfold _crawl_page. by rewrite Hfetch.
  - rewrite (crawl_page_document _ _ _ _ Hfetch). simpl.
    destruct (add_emails_only_status self new_emails) as [Hf Hr].
    rewrite fetched_app, results_app, Hf, Hr.
    by destruct (add_links _ hrefs).2.
Qed.

Lemma crawl_page_count self url a :
  status_count ("Found Email: " +:+ a) (_crawl_page self url).2 =
  if decide (a ∈ emails_found (_crawl_page self url).1 ∧
             a ∉ emails_found self) then 1 else 0.
Proof.
  rewrite crawl_page_emails.
  destruct (fetch url) as [e|e|new_emails hrefs] eqn:Hfetch.
  - rewrite (crawl_page_request_exception _ _ _ Hfetch). simpl.
    rewrite !status_count_cons_ne by (done || other_line).
    rewrite decide_False; [done|]. set_solver.
  - unfold _crawl_page. rewrite Hfetch. simpl.
    rewrite !status_count_cons_ne by (done || other_line).
    rewrite decide_False; [done|]. set_solver.
  - rewrite (crawl_page_document _ _ _ _ Hfetch). cbn [fst snd app].
    rewrite !status_count_cons_ne by (done || other_line).
    rewrite status_count_app, add_emails_count.
    replace (status_count _ (match _ with Some _ => _ | None => _ end))
      with 0.
    2:{ destruct (add_links _ hrefs).2; [|done].
        by rewrite status_count_cons_ne by other_line. }
    rewrite Nat.add_0_r. apply decide_ext. set_solver.
Qed.

End Crawl.

Section Loop.
Context `{W : World}.

(** *** The loop *)

Lemma poll_fields l :
  pages_crawled (poll l) = pages_crawled l ∧
  iteration (poll l) = iteration l ∧
  base_url (scraper (poll l)) = base_url (scraper l) ∧
  domain (scraper (poll l)) = domain (scraper l) ∧
  emails_found (scraper (poll l)) = emails_found (scraper l) ∧
  visited_urls (scraper (poll l)) = visited_urls (scraper l) ∧
  urls_to_visit (scraper (poll l)) = urls_to_visit (scraper l) ∧
  max_pages (scraper (poll l)) = max_pages (scraper l).
Proof. unfold poll. by destruct (stop_requested _). Qed.

Lemma poll_idemp l : poll (poll l) = poll l.
Proof.
  unfold poll. destruct (stop_requested (iteration l)) eqn:E; simpl; by rewrite E.
Qed.

Lemma poll_not_requested l :
  stop_requested (iteration l) = false → poll l = l.
Proof. unfold poll. by intros ->. Qed.

Lemma loop_condition_true l :
  loop_condition l = true ↔
  urls_to_visit (scraper l) ≠ ∅ ∧
  pages_crawled l < max_pages (scraper l) ∧
  is_scraping (scraper l) = true.
Proof.
  unfold loop_condition.
  rewrite !andb_true_iff, !bool_decide_eq_true. tauto.
Qed.

(** What lines 77 to 79 do to [self]. *)
Lemma dequeue_spec l :
  let current_url := set_pop (iteration l) (urls_to_visit (scraper l)) in
  let '(marked, url, fresh) := dequeue l in
  url = current_url ∧
  urls_to_visit marked = urls_to_visit (scraper l) ∖ {[ current_url ]} ∧
  base_url marked = base_url (scraper l) ∧
  domain marked = domain (scraper l) ∧
  emails_found marked = emails_found (scraper l) ∧
  is_scraping marked = is_scraping (scraper l) ∧
  max_pages marked = max_pages (scraper l) ∧
  (if fresh
   then (current_url ∉ visited_urls (scraper l)) ∧
        visited_urls marked = {[ current_url ]} ∪ visited_urls (scraper l)
   else current_url ∈ visited_urls (scraper l) ∧
        visited_urls marked = visited_urls (scraper l)).
Proof.
  unfold dequeue. simpl.
  destruct (decide (_ ∉ _)) as [Hn|Hn]; simpl; repeat split; try done.
  by apply dec_stable in Hn.
Qed.

(** A popped URL that had not been visited is in [visited_urls] when
    [_crawl_page] is called on it. *)
Lemma dequeue_marks l marked url :
  dequeue l = (marked, url, true) →
  url ∈ visited_urls marked ∧ (url ∉ visited_urls (scraper l)) ∧
  (url ∉ urls_to_visit marked).
Proof.
  intros E. pose proof (dequeue_spec l) as H. rewrite E in H. simpl in H.
  destruct H as (-> & Hf & _ & _ & _ & _ & _ & Hn & Hv).
  rewrite Hf, Hv. set_solver.
Qed.

(** With a frontier free of visited URLs, the popped URL is new. *)
Lemma dequeue_fresh l :
  frontier_fresh (scraper l) → urls_to_visit (scraper l) ≠ ∅ →
  (dequeue l).2 = true.
Proof.
  intros Hfresh Hne. pose proof (dequeue_spec l) as H.
  destruct (dequeue l) as [[marked url] [|]]; [done|]. simpl in H.
  destruct H as (_ & _ & _ & _ & _ & _ & _ & Hv & _).
  pose proof (set_pop_elem (iteration l) _ Hne). set_solver.
Qed.

Lemma loop_body_fields l :
  let l' := (loop_body l).1 in
  iteration l' = S (iteration l) ∧
  base_url (scraper l') = base_url (scraper l) ∧
  domain (scraper l') = domain (scraper l) ∧
  is_scraping (scraper l') = is_scraping (scraper l) ∧
  max_pages (scraper l') = max_pages (scraper l).
Proof.
  unfold loop_body. pose proof (dequeue_spec l) as H.
  destruct (dequeue l) as [[marked url] fresh]. simpl in H.
  destruct H as (_ & _ & ? & ? & _ & ? & ? & _).
  destruct fresh; simpl; [|done].
  pose proof (crawl_page_fields marked url) as Hc.
  destruct (_crawl_page marked url) as [crawled out]. simpl in *.
  destruct Hc as (? & ? & _ & ? & ?). repeat split; congruence.
Qed.

(** An iteration either drops a visited URL from the frontier, or marks a
    new URL visited and requests it, once. *)
Lemma loop_body_fetched l :
  let '(l', out) := loop_body l in
  results out = [] ∧
  ((fetched out = [] ∧ pages_crawled l' = pages_crawled l ∧
    visited_urls (scraper l') = visited_urls (scraper l) ∧
    emails_found (scraper l') = emails_found (scraper l)) ∨
   (∃ url, fetched out = [url] ∧ (url ∉ visited_urls (scraper l)) ∧
           visited_urls (scraper l') = {[ url ]} ∪ visited_urls (scraper l) ∧
           pages_crawled l' = S (pages_crawled l) ∧
           emails_found (scraper l') =
             emails_found (scraper l) ∪
             match fetch url with
             | Document new_emails _ => list_to_set new_emails
             | _ => ∅
             end)).
Proof.
  unfold loop_body. pose proof (dequeue_spec l) as H.
  destruct (dequeue l) as [[marked url] fresh]. simpl in H.
  destruct H as (-> & _ & _ & _ & He & _ & _ & Hv).
  destruct fresh; simpl; [|split; [done|left; by destruct Hv]].
  set (url := set_pop (iteration l) (urls_to_visit (scraper l))) in *.
  pose proof (crawl_page_fields marked url) as Hf.
  pose proof (crawl_page_events marked url) as [Hg Hr].
  pose proof (crawl_page_emails marked url) as Hm.
  destruct (_crawl_page marked _) as [crawled out]. simpl in *.
  rewrite fetched_app, results_app, Hg, Hr. split; [done|].
  right. eexists. destruct Hv as [? Hv], Hf as (_ & _ & Hf & _).
  rewrite Hm, He, Hf, Hv. done.
Qed.

Lemma loop_body_fresh l :
  frontier_fresh (scraper l) → frontier_fresh (scraper (loop_body l).1).
Proof.
  intros Hfresh. unfold loop_body. pose proof (dequeue_spec l) as H.
  destruct (dequeue l) as [[marked url] fresh]. simpl in H.
  destruct H as (_ & Hf & _ & _ & _ & _ & _ & Hv).
  assert (frontier_fresh marked) as Hm.
  { unfold frontier_fresh in *. rewrite Hf.
    destruct fresh; destruct Hv as [? ->]; set_solver. }
  destruct fresh; simpl; [|done].
  pose proof (crawl_page_fresh marked url Hm) as Hc.
  by destruct (_crawl_page marked url).
Qed.

Lemma loop_body_scoped l :
  frontier_scoped (scraper l) → frontier_scoped (scraper (loop_body l).1).
Proof.
  intros Hscoped. unfold loop_body. pose proof (dequeue_spec l) as H.
  destruct (dequeue l) as [[marked url] fresh]. simpl in H.
  destruct H as (_ & Hf & _ & Hd & _).
  assert (frontier_scoped marked) as Hm.
  { unfold frontier_scoped in *. rewrite Hf, Hd. intros u ?.
    apply Hscoped. set_solver. }
  destruct fresh; simpl; [|done].
  pose proof (crawl_page_scoped marked url Hm) as Hc.
  by destruct (_crawl_page marked url).
Qed.

Lemma loop_body_count l a :
  let '(l', out) := loop_body l in
  emails_found (scraper l) ⊆ emails_found (scraper l') ∧
  status_count ("Found Email: " +:+ a) out =
  if decide (a ∈ emails_found (scraper l') ∧ a ∉ emails_found (scraper l))
  then 1 else 0.
Proof.
  unfold loop_body. pose proof (dequeue_spec l) as H.
  destruct (dequeue l) as [[marked url] fresh]. simpl in H.
  destruct H as (_ & _ & _ & _ & He & _).
  destruct fresh; simpl.
  - pose proof (crawl_page_count marked url a) as Hc.
    pose proof (crawl_page_emails marked url) as Hm.
    destruct (_crawl_page marked url) as [crawled out]. simpl in *.
    rewrite status_count_app, Hc, He.
    rewrite status_count_cons_ne by done. rewrite Nat.add_0_r.
    split; [|done]. rewrite Hm, He. set_solver.
  - rewrite He. split; [done|]. rewrite decide_False; [done|]. tauto.
Qed.

End Loop.

Section Run.
Context `{W : World}.

(** *** Several iterations *)

Lemma iterations_S n l :
  iterations (S n) l =
  if loop_condition (poll l) then
    ((iterations n (loop_body (poll l)).1).1,
     (loop_body (poll l)).2 ++ (iterations n (loop_body (poll l)).1).2)
  else (poll l, []).
Proof.
  simpl. destruct (loop_condition (poll l)); [|done].
  destruct (loop_body (poll l)) as [l1 out1]. simpl.
  by destruct (iterations n l1).
Qed.

(** Running [n] iterations and then [m] is running [n + m]. *)
Lemma iterations_add n m l :
  iterations (n + m) l =
  ((iterations m (iterations n l).1).1,
   (iterations n l).2 ++ (iterations m (iterations n l).1).2).
Proof.
  revert l. induction n as [|n IH]; intros l.
  { simpl. by destruct (iterations m l). }
  replace (S n + m) with (S (n + m)) by done. rewrite !iterations_S.
  destruct (loop_condition (poll l)) eqn:Hc.
  - rewrite IH. simpl. by rewrite app_assoc.
  - simpl. destruct m as [|m]; [done|].
    by rewrite iterations_S, poll_idemp, Hc.
Qed.

(** A property of loop states kept by [poll] and by the body is kept by
    any number of iterations. *)
Lemma iterations_ind (P : Loop → Prop) :
  (∀ l, P l → P (poll l)) →
  (∀ l, P l → loop_condition l = true → P (loop_body l).1) →
  ∀ n l, P l → P (iterations n l).1.
Proof.
  intros Hpoll Hbody n. induction n as [|n IH]; intros l Hl; [done|].
  rewrite iterations_S. destruct (loop_condition (poll l)) eqn:Hc; simpl.
  - apply IH. apply Hbody; auto.
  - auto.
Qed.

Lemma poll_fresh l :
  frontier_fresh (scraper l) → frontier_fresh (scraper (poll l)).
Proof.
  unfold frontier_fresh.
  destruct (poll_fields l) as (_ & _ & _ & _ & _ & -> & -> & _). done.
Qed.

Lemma poll_scoped l :
  frontier_scoped (scraper l) → frontier_scoped (scraper (poll l)).
Proof.
  unfold frontier_scoped.
  destruct (poll_fields l) as (_ & _ & _ & -> & _ & _ & -> & _). done.
Qed.

Lemma iterations_fresh n l :
  frontier_fresh (scraper l) → frontier_fresh (scraper (iterations n l).1).
Proof.
  apply (iterations_ind (λ l, frontier_fresh (scraper l)));
    eauto using poll_fresh, loop_body_fresh.
Qed.

Lemma iterations_scoped n l :
  frontier_scoped (scraper l) → frontier_scoped (scraper (iterations n l).1).
Proof.
  apply (iterations_ind (λ l, frontier_scoped (scraper l)));
    eauto using poll_scoped, loop_body_scoped.
Qed.

Lemma iterations_fields n l :
  let l' := (iterations n l).1 in
  base_url (scraper l') = base_url (scraper l) ∧
  domain (scraper l') = domain (scraper l) ∧
  max_pages (scraper l') = max_pages (scraper l).
Proof.
  simpl. apply (iterations_ind (λ l',
    base_url (scraper l') = base_url (scraper l) ∧
    domain (scraper l') = domain (scraper l) ∧
    max_pages (scraper l') = max_pages (scraper l))); [| |done].
  - intros l0 ?.
    destruct (poll_fields l0) as (_ & _ & -> & -> & _ & _ & _ & ->). done.
  - intros l0 ? _.
    destruct (loop_body_fields l0) as (_ & -> & -> & _ & ->). done.
Qed.

(** The page counter never passes the budget. *)
Lemma iterations_budget n l :
  pages_crawled l ≤ max_pages (scraper l) →
  pages_crawled (iterations n l).1 ≤ max_pages (scraper (iterations n l).1).
Proof.
  apply (iterations_ind (λ l, pages_crawled l ≤ max_pages (scraper l))).
  - intros l0 ?.
    destruct (poll_fields l0) as (-> & _ & _ & _ & _ & _ & _ & ->). done.
  - intros l0 _ (_ & Hlt & _)%loop_condition_true.
    destruct (loop_body_fields l0) as (_ & _ & _ & _ & ->).
    pose proof (loop_body_fetched l0) as Hf.
    destruct (loop_body l0) as [l1 out]. simpl.
    destruct Hf as (_ & [(_ & -> & _)|(? & _ & _ & _ & -> & _)]); lia.
Qed.

(** The pages requested by [n] iterations: none was visited before, all
    are visited afterwards, none is requested twice, and the page counter
    has advanced by their number. *)
Lemma iterations_fetched n l :
  let '(l', out) := iterations n l in
  results out = [] ∧
  visited_urls (scraper l) ⊆ visited_urls (scraper l') ∧
  NoDup (fetched out) ∧
  (∀ url, url ∈ fetched out →
          url ∈ visited_urls (scraper l') ∧
          url ∉ visited_urls (scraper l)) ∧
  pages_crawled l' = pages_crawled l + length (fetched out).
Proof.
  revert l. induction n as [|n IH]; intros l.
  { simpl. split_and!; [done|done|apply NoDup_nil_2| |lia].
    by intros ? ?%elem_of_nil. }
  rewrite iterations_S.
  destruct (poll_fields l) as (Hp & _ & _ & _ & _ & Hv & _).
  destruct (loop_condition (poll l)).
  2:{ rewrite Hp, Hv. simpl. split_and!; [done|done|apply NoDup_nil_2| |lia].
      by intros ? ?%elem_of_nil. }
  pose proof (loop_body_fetched (poll l)) as Hb.
  destruct (loop_body (poll l)) as [l1 out1]. simpl.
  specialize (IH l1). destruct (iterations n l1) as [l2 out2]. simpl.
  destruct IH as (Hr2 & Hsub & Hnd & Hin & Hpages).
  destruct Hb as (Hr1 & Hb). rewrite results_app, fetched_app, Hr1, Hr2.
  rewrite Hp, Hv in Hb.
  destruct Hb as [(-> & Hp1 & Hv1 & _)|(url & -> & Hnew & Hv1 & Hp1 & _)].
  - simpl. rewrite <-Hv1, <-Hp1. done.
  - simpl. rewrite Hv1 in Hsub, Hin. split_and!; [done| | | |lia].
    + set_solver.
    + apply NoDup_cons. split; [|done]. intros ?%Hin. set_solver.
    + intros u [->|?%Hin]%elem_of_cons; set_solver.
Qed.

(** Each address is announced once, by the iteration that first records
    it, and addresses are never removed. *)
Lemma iterations_count n l a :
  let '(l', out) := iterations n l in
  emails_found (scraper l) ⊆ emails_found (scraper l') ∧
  status_count ("Found Email: " +:+ a) out =
  if decide (a ∈ emails_found (scraper l') ∧ a ∉ emails_found (scraper l))
  then 1 else 0.
Proof.
  revert l. induction n as [|n IH]; intros l.
  { simpl. split; [done|]. rewrite decide_False; [done|]. tauto. }
  rewrite iterations_S.
  destruct (poll_fields l) as (_ & _ & _ & _ & He & _).
  destruct (loop_condition (poll l)).
  2:{ rewrite He. split; [done|]. rewrite decide_False; [done|]. tauto. }
  pose proof (loop_body_count (poll l) a) as Hb.
  destruct (loop_body (poll l)) as [l1 out1]. simpl.
  specialize (IH l1). destruct (iterations n l1) as [l2 out2]. simpl.
  rewrite He in Hb. destruct Hb as [Hsub1 Hc1], IH as [Hsub2 Hc2].
  split; [set_solver|]. rewrite status_count_app, Hc1, Hc2.
  repeat case_decide; try done; set_solver.
Qed.

(** Every address recorded by the loop is on a page it requested. *)
Lemma iterations_emails n l a :
  let '(l', out) := iterations n l in
  a ∈ emails_found (scraper l') ↔
  a ∈ emails_found (scraper l) ∨
  ∃ url new_emails hrefs,
    url ∈ fetched out ∧ fetch url = Document new_emails hrefs ∧
    a ∈ new_emails.
Proof.
  revert l. induction n as [|n IH]; intros l.
  { simpl. split; [auto|]. by intros [?|(? & ? & ? & ?%elem_of_nil & _)]. }
  rewrite iterations_S.
  destruct (poll_fields l) as (_ & _ & _ & _ & He & _).
  destruct (loop_condition (poll l)).
  2:{ rewrite He. simpl. split; [auto|].
      by intros [?|(? & ? & ? & ?%elem_of_nil & _)]. }
  pose proof (loop_body_fetched (poll l)) as Hb.
  destruct (loop_body (poll l)) as [l1 out1]. simpl.
  specialize (IH l1). destruct (iterations n l1) as [l2 out2]. simpl.
  rewrite IH, fetched_app. rewrite He in Hb.
  destruct Hb as (_ & [(-> & _ & _ & ->)|(url & -> & _ & _ & _ & ->)]).
  { done. }
  rewrite elem_of_union. split.
  - intros [[?|Hdoc]|(u & es & hs & ? & ? & ?)]; [by left| |].
    + right. destruct (fetch url) as [| |es hs] eqn:Hfetch;
        try by apply not_elem_of_empty in Hdoc.
      exists url, es, hs. split; [left|]. split; [done|].
      by apply elem_of_list_to_set in Hdoc.
    + right. exists u, es, hs. split; [by right|done].
  - intros [?|(u & es & hs & [->|?]%elem_of_cons & Hfetch & ?)].
    + by left; left.
    + left; right. rewrite Hfetch. by apply elem_of_list_to_set.
    + right. by exists u, es, hs.
Qed.

(** With a frontier free of visited URLs every iteration crawls a page,
    so the loop has ended once the remaining budget is used up. *)
Lemma iterations_end n l :
  frontier_fresh (scraper l) →
  max_pages (scraper l) ≤ pages_crawled l + n →
  loop_condition (poll (iterations n l).1) = false.
Proof.
  revert l. induction n as [|n IH]; intros l Hfresh Hn.
  { simpl. apply not_true_is_false. intros (_ & Hlt & _)%loop_condition_true.
    destruct (poll_fields l) as (Hp & _ & _ & _ & _ & _ & _ & Hm).
    rewrite Hp, Hm in Hlt. lia. }
  rewrite iterations_S. destruct (loop_condition (poll l)) eqn:Hc.
  2:{ simpl. by rewrite poll_idemp. }
  simpl. apply loop_condition_true in Hc as (Hne & _ & _).
  apply poll_fresh in Hfresh.
  apply IH; [by apply loop_body_fresh|].
  destruct (loop_body_fields (poll l)) as (_ & _ & _ & _ & ->).
  pose proof (dequeue_fresh _ Hfresh Hne) as Hd.
  unfold loop_body. destruct (dequeue (poll l)) as [[marked url] fresh].
  simpl in Hd. subst fresh. destruct (_crawl_page marked url). simpl.
  destruct (poll_fields l) as (-> & _ & _ & _ & _ & _ & _ & ->). lia.
Qed.

End Run.

Section Session.
Context `{W : World}.

(** *** A whole run *)

Lemma init_spec base self :
  __init__ base = Ok self →
  base_url self = base ∧
  (∃ parsed, urlparse base = Ok parsed ∧ domain self = netloc parsed) ∧
  emails_found self = ∅ ∧ visited_urls self = ∅ ∧
  urls_to_visit self = {[ base ]} ∧
  is_scraping self = true ∧ max_pages self = 50.
Proof.
  unfold __init__. destruct (urlparse base) as [parsed|e] eqn:E; [|done].
  intros [= <-]. simpl. split_and!; eauto.
Qed.

Lemma init_fresh base self : __init__ base = Ok self → frontier_fresh self.
Proof.
  intros (_ & _ & _ & Hv & _)%init_spec. unfold frontier_fresh.
  rewrite Hv. set_solver.
Qed.

Lemma init_scoped base self : __init__ base = Ok self → frontier_scoped self.
Proof.
  intros (_ & (p & Hp & Hd) & _ & _ & Hf & _)%init_spec url.
  rewrite Hf, Hd. intros ->%elem_of_singleton. eauto.
Qed.

Lemma start_scraping_eq fuel self :
  start_scraping fuel self =
  let l := poll (iterations fuel (loop_entry self)).1 in
  if loop_condition l then None
  else Some (set_is_scraping false (scraper l), pages_crawled l,
             (iterations fuel (loop_entry self)).2 ++
             [Status "Scraping finished.";
              Result (set_list (emails_found (scraper l)))]).
Proof.
  unfold start_scraping. destruct (iterations fuel (loop_entry self)).
  simpl. by destruct (loop_condition _).
Qed.

(** From a frontier free of visited URLs, [max_pages] iterations are
    enough for the loop to end, and [start_scraping] returns. *)
Lemma start_scraping_returns fuel self :
  frontier_fresh self → max_pages self ≤ fuel →
  let l := poll (iterations fuel (loop_entry self)).1 in
  start_scraping fuel self =
    Some (set_is_scraping false (scraper l), pages_crawled l,
          (iterations fuel (loop_entry self)).2 ++
          [Status "Scraping finished.";
           Result (set_list (emails_found (scraper l)))]).
Proof.
  intros Hfresh Hfuel. rewrite start_scraping_eq. simpl.
  by rewrite (iterations_end fuel (loop_entry self)).
Qed.

(** A run started by [__init__] returns, and its trace is that of the
    loop, which holds no result, followed by the two final events. *)
Lemma run_ends base self fuel :
  __init__ base = Ok self → 50 ≤ fuel →
  ∃ s n loop_out,
    start_scraping fuel self =
      Some (s, n,
            loop_out ++ [Status "Scraping finished.";
                         Result (set_list (emails_found s))]) ∧
    results loop_out = [].
Proof.
  intros Hinit Hfuel. pose proof (init_fresh _ _ Hinit) as Hfresh.
  destruct (init_spec _ _ Hinit) as (_ & _ & _ & _ & _ & _ & Hmax).
  exists (set_is_scraping false
            (scraper (poll (iterations fuel (loop_entry self)).1))),
         (pages_crawled (poll (iterations fuel (loop_entry self)).1)),
         (iterations fuel (loop_entry self)).2.
  split.
  { apply start_scraping_returns; [done|]. by rewrite Hmax. }
  pose proof (iterations_fetched fuel (loop_entry self)) as Hf.
  destruct (iterations fuel (loop_entry self)). tauto.
Qed.

(** Without a stop request, at a non-empty frontier free of visited URLs,
    and within the budget, an iteration crawls one more page. *)
Lemma iterations_one_more l :
  (∀ i, stop_requested i = false) →
  frontier_fresh (scraper l) → is_scraping (scraper l) = true →
  urls_to_visit (scraper l) ≠ ∅ →
  pages_crawled l < max_pages (scraper l) →
  let l' := (iterations 1 l).1 in
  pages_crawled l' = S (pages_crawled l) ∧
  is_scraping (scraper l') = true.
Proof.
  intros Hstop Hfresh Hrun Hne Hlt. simpl.
  rewrite (poll_not_requested l) by auto.
  rewrite (proj2 (loop_condition_true l)) by auto.
  pose proof (dequeue_fresh _ Hfresh Hne) as Hd.
  pose proof (loop_body_fields l) as (_ & _ & _ & Hs & _).
  unfold loop_body in *. destruct (dequeue l) as [[marked url] fresh].
  simpl in Hd. subst fresh. destruct (_crawl_page marked url). simpl in *.
  split; [done|congruence].
Qed.

Lemma iterations_full m l :
  (∀ i, stop_requested i = false) →
  frontier_fresh (scraper l) → is_scraping (scraper l) = true →
  (∀ k, k < m → urls_to_visit (scraper (iterations k l).1) ≠ ∅) →
  pages_crawled l + m ≤ max_pages (scraper l) →
  pages_crawled (iterations m l).1 = pages_crawled l + m ∧
  is_scraping (scraper (iterations m l).1) = true.
Proof.
  intros Hstop Hfresh Hrun. induction m as [|m IH]; intros Hne Hle.
  { simpl. split; [lia|done]. }
  destruct IH as [Hp Hs]; [intros k ?; apply Hne; lia|lia|].
  replace (S m) with (m + 1) by lia. rewrite iterations_add. cbn [fst].
  destruct (iterations_fields m l) as (_ & _ & Hm).
  destruct (iterations_one_more (iterations m l).1) as [Hp' Hs']; auto.
  - by apply iterations_fresh.
  - rewrite Hp, Hm. lia.
  - rewrite Hp', Hp. split; [lia|done].
Qed.

(** Once the counter has reached the budget nothing more happens. *)
Lemma iterations_spent n l :
  max_pages (scraper l) ≤ pages_crawled l →
  pages_crawled (poll (iterations n l).1) = pages_crawled l ∧
  (iterations n l).2 = [].
Proof.
  intros Hle. destruct (poll_fields l) as (Hp & _ & _ & _ & _ & _ & _ & Hm).
  destruct n as [|n]; [done|]. rewrite iterations_S.
  destruct (loop_condition (poll l)) eqn:Hc.
  { apply loop_condition_true in Hc as (_ & ? & _). lia. }
  simpl. by rewrite poll_idemp.
Qed.

End Session.

(** A link that [urljoin] cannot parse never reaches [_is_valid_url]: the
    exception leaves the loop over the links and is reported by the
    handler of [_crawl_page]; the addresses of the page are kept, its
    remaining links are dropped. *)
Example crawl_page_broken_link :
  _crawl_page (W:=broken_link_world) example_scraper "https://example.com/" =
  (set_emails_found {[ "a@b.com" ]} example_scraper,
   [Status "Visiting: https://example.com/"; Get "https://example.com/";
    Status "Found Email: a@b.com";
    Status "An unexpected error occurred: Invalid IPv6 URL"]).
Proof. by vm_compute. Qed.

(** * The claims *)

(** C2.  [_is_valid_url] accepts a URL exactly when it parses, its netloc
    is the string [self.domain] (no normalisation), its scheme is [http]
    or [https], and it is not in [visited_urls]; and it returns [False]
    when [urlparse] raises.  But line 64 resolves the link with [urljoin]
    before the check, outside its [try]: on a page whose links are
    [https://[::1], which cannot be parsed, and [/team], [urljoin] raises
    on the first, the check is never called for it, the exception leaves
    the loop over the links and is reported as an unexpected error, and
    [/team], which alone is admitted, is dropped. *)
Theorem C2_admission_check :
  (∀ (W : World) self url,
     (_is_valid_url self url = true ↔
        ∃ parsed, urlparse url = Ok parsed ∧ netloc parsed = domain self ∧
                  (scheme parsed = "http" ∨ scheme parsed = "https") ∧
                  url ∉ visited_urls self) ∧
     (∀ e, urlparse url = Raise e → _is_valid_url self url = false)) ∧
  py_urlparse "https://[::1" = Raise "Invalid IPv6 URL" ∧
  _is_valid_url (W:=broken_link_world) example_scraper "https://[::1" =
    false ∧
  py_urljoin "https://example.com/" "https://[::1" =
    Raise "Invalid IPv6 URL" ∧
  add_links (W:=broken_link_world) example_scraper
    ["https://[::1"; "/team"] =
    (example_scraper, Some "Invalid IPv6 URL") ∧
  urls_to_visit
    (add_links (W:=broken_link_world) example_scraper ["/team"]).1 =
    {[ "https://example.com/team" ]} ∪ urls_to_visit example_scraper ∧
  _crawl_page (W:=broken_link_world) example_scraper "https://example.com/" =
    (set_emails_found {[ "a@b.com" ]} example_scraper,
     [Status "Visiting: https://example.com/"; Get "https://example.com/";
      Status "Found Email: a@b.com";
      Status "An unexpected error occurred: Invalid IPv6 URL"]).
Proof.
  split.
  { intros W self url. split; [apply _is_valid_url_true|].
    intros e He. unfold _is_valid_url. by rewrite He. }
  split_and!; by vm_compute.
Qed.

Section Claims.
Context `{W : World}.

(** C10.  The comparison is on the whole netloc: a candidate whose netloc
    differs from the seed's (a port, userinfo), whatever its hostname, is
    rejected by the check, is in the frontier at no iteration of the run,
    and is not put there by the loop over the links of a page. *)
Theorem C10_netloc_scoping base self url parsed :
  __init__ base = Ok self →
  urlparse url = Ok parsed →
  netloc parsed ≠ domain self →
  _is_valid_url self url = false ∧
  (∀ n, url ∉ urls_to_visit (scraper (iterations n (loop_entry self)).1)) ∧
  (∀ n hrefs,
     url ∉ urls_to_visit
             (add_links (scraper (iterations n (loop_entry self)).1)
                        hrefs).1).
Proof.
  intros Hinit Hparse Hne.
  assert (∀ s, frontier_scoped s → domain s = domain self →
               url ∉ urls_to_visit s) as Hout.
  { intros s Hs Hd Hin. destruct (Hs _ Hin) as (p & Hp & Hn).
    rewrite Hparse in Hp. injection Hp as <-. congruence. }
  split_and!.
  - apply not_true_is_false.
    intros Hv. apply _is_valid_url_true in Hv as (p & Hp & Hn & _).
    congruence.
  - intros n. apply Hout.
    + apply iterations_scoped. by apply init_scoped in Hinit.
    + by destruct (iterations_fields n (loop_entry self)) as (_ & -> & _).
  - intros n hrefs. apply Hout.
    + apply add_links_scoped, iterations_scoped.
      by apply init_scoped in Hinit.
    + destruct (add_links_fields
                  (scraper (iterations n (loop_entry self)).1) hrefs)
        as (_ & -> & _).
      by destruct (iterations_fields n (loop_entry self)) as (_ & -> & _).
Qed.

(** C3.  From [__init__] on, the frontier and [visited_urls] are disjoint
    at the start of every iteration, after the pop and the marking, and
    after the links of a page; a visited URL does not pass the admission
    check; a popped URL is in [visited_urls] when [_crawl_page], which
    issues the only request of the iteration, is called on it; and no URL
    is requested twice in a run. *)
Theorem C3_frontier_visited_disjoint base self :
  __init__ base = Ok self →
  (∀ n, frontier_fresh (scraper (iterations n (loop_entry self)).1)) ∧
  (∀ n, let l := poll (iterations n (loop_entry self)).1 in
        frontier_fresh (dequeue l).1.1 ∧
        ∀ hrefs, frontier_fresh (add_links (dequeue l).1.1 hrefs).1) ∧
  (∀ s url, url ∈ visited_urls s → _is_valid_url s url = false) ∧
  (∀ l marked url,
     dequeue l = (marked, url, true) →
     url ∈ visited_urls marked ∧
     (loop_body l).2 = (_crawl_page marked url).2 ++ [Sleep] ∧
     fetched (_crawl_page marked url).2 = [url]) ∧
  (∀ l marked url,
     dequeue l = (marked, url, false) → fetched (loop_body l).2 = []) ∧
  (∀ n, NoDup (fetched (iterations n (loop_entry self)).2)) ∧
  (∀ fuel, 50 ≤ fuel →
     ∃ s n out, start_scraping fuel self = Some (s, n, out) ∧
                NoDup (fetched out)).
Proof.
  intros Hinit. pose proof (init_fresh _ _ Hinit) as Hfresh.
  assert (∀ n, frontier_fresh (scraper (iterations n (loop_entry self)).1))
    as Hall by (intros n; by apply iterations_fresh).
  split_and!; [done| | | | | |].
  - intros n l.
    assert (frontier_fresh (dequeue l).1.1) as Hd.
    { pose proof (dequeue_spec l) as H.
      pose proof (poll_fresh _ (Hall n)) as Hl. fold l in Hl.
      destruct (dequeue l) as [[marked u] fresh]. simpl in *.
      destruct H as (_ & Hf & _ & _ & _ & _ & _ & Hv).
      unfold frontier_fresh in *. rewrite Hf.
      destruct fresh; destruct Hv as [? ->]; set_solver. }
    split; [done|]. intros hrefs. by apply add_links_fresh.
  - intros s url Hv. apply not_true_is_false. intros Hvalid.
    by apply _is_valid_url_true in Hvalid as (? & _ & _ & _ & ?).
  - intros l marked url Hd.
    destruct (dequeue_marks _ _ _ Hd) as (? & _).
    split; [done|]. split; [|apply crawl_page_events].
    unfold loop_body. rewrite Hd. by destruct (_crawl_page marked url).
  - intros l marked url Hd. unfold loop_body. by rewrite Hd.
  - intros n. pose proof (iterations_fetched n (loop_entry self)) as H.
    destruct (iterations n (loop_entry self)). tauto.
  - intros fuel Hfuel.
    destruct (init_spec _ _ Hinit) as (_ & _ & _ & _ & _ & _ & Hmax).
    eexists _, _, _. split.
    { apply start_scraping_returns; [done|]. by rewrite Hmax. }
    rewrite fetched_app. simpl. rewrite app_nil_r.
    pose proof (iterations_fetched fuel (loop_entry self)) as H.
    destruct (iterations fuel (loop_entry self)). tauto.
Qed.

End Claims.

Section ClaimsRun.
Context `{W : World}.

(** C4.  A run started by [__init__] ends within 50 iterations, having
    crawled at most 50 pages, each requested once; when no stop is
    requested and the frontier is non-empty at each of the first 50 tests
    of the loop condition, it ends after exactly 50 pages. *)
Theorem C4_page_budget base self fuel :
  __init__ base = Ok self →
  50 ≤ fuel →
  ∃ s n out,
    start_scraping fuel self = Some (s, n, out) ∧
    n ≤ 50 ∧ length (fetched out) = n ∧
    ((∀ i, stop_requested i = false) →
     (∀ k, k < 50 →
           urls_to_visit (scraper (iterations k (loop_entry self)).1) ≠ ∅) →
     n = 50).
Proof.
  intros Hinit Hfuel. pose proof (init_fresh _ _ Hinit) as Hfresh.
  destruct (init_spec _ _ Hinit) as (_ & _ & _ & _ & _ & Hrun & Hmax).
  eexists _, _, _. split.
  { apply start_scraping_returns; [done|]. by rewrite Hmax. }
  destruct (poll_fields (iterations fuel (loop_entry self)).1)
    as (Hp & _ & _ & _ & _ & _ & _ & _).
  rewrite Hp, fetched_app. simpl. rewrite app_nil_r.
  pose proof (iterations_budget fuel (loop_entry self)) as Hb.
  pose proof (iterations_fetched fuel (loop_entry self)) as Hf.
  destruct (iterations_fields fuel (loop_entry self)) as (_ & _ & Hm).
  split_and!.
  - simpl in Hb, Hm. rewrite Hm, Hmax in Hb. apply Hb. lia.
  - destruct (iterations fuel (loop_entry self)). simpl.
    destruct Hf as (_ & _ & _ & _ & ->). done.
  - intros Hstop Hne.
    destruct (iterations_full 50 (loop_entry self)) as [H50 _]; auto.
    { simpl. lia. }
    replace fuel with (50 + (fuel - 50)) by lia. rewrite iterations_add.
    cbn [fst].
    destruct (iterations_fields 50 (loop_entry self)) as (_ & _ & Hm50).
    destruct (iterations_spent (fuel - 50) (iterations 50 (loop_entry self)).1)
      as [Hs _].
    { rewrite Hm50, H50. simpl. lia. }
    destruct (poll_fields
                (iterations (fuel - 50) (iterations 50 (loop_entry self)).1).1)
      as (Hp' & _).
    rewrite <-Hp', Hs, H50. done.
Qed.

(** C5.  In a run started by [__init__] the list handed to the result
    callback holds no address twice and holds exactly the addresses found
    on the pages that were fetched; the status callback receives
    ["Found Email: " + address] once for each of them and never for
    another address; after any number of iterations the line of an address
    has been sent, once, exactly if a page fetched so far holds the
    address, so it is sent while the first such page is crawled; and on a
    page the line is sent when the loop reaches the first occurrence of an
    address that was not recorded before. *)
Theorem C5_each_email_once base self fuel :
  __init__ base = Ok self →
  50 ≤ fuel →
  ∃ s n out,
    start_scraping fuel self = Some (s, n, out) ∧
    results out = [set_list (emails_found s)] ∧
    NoDup (set_list (emails_found s)) ∧
    (∀ a, a ∈ set_list (emails_found s) ↔
          ∃ url new_emails hrefs,
            url ∈ fetched out ∧ fetch url = Document new_emails hrefs ∧
            a ∈ new_emails) ∧
    (∀ a, status_count ("Found Email: " +:+ a) out =
          if decide (a ∈ emails_found s) then 1 else 0) ∧
    (∀ k a,
       let so_far := (iterations k (loop_entry self)).2 in
       status_count ("Found Email: " +:+ a) so_far ≤ 1 ∧
       (status_count ("Found Email: " +:+ a) so_far = 1 ↔
        ∃ url new_emails hrefs,
          url ∈ fetched so_far ∧
          fetch url = Document new_emails hrefs ∧ a ∈ new_emails)) ∧
    (∀ s0 l1 a l2,
       a ∉ l1 → a ∉ emails_found s0 →
       let before := add_emails s0 l1 in
       let after :=
         add_emails
           (set_emails_found ({[a]} ∪ emails_found before.1) before.1) l2 in
       add_emails s0 (l1 ++ a :: l2) =
         (after.1, before.2 ++ found_line a :: after.2) ∧
       (found_line a ∉ snd before) ∧ (found_line a ∉ snd after)).
Proof.
  intros Hinit Hfuel. pose proof (init_fresh _ _ Hinit) as Hfresh.
  destruct (init_spec _ _ Hinit) as (_ & _ & Hemails & _ & _ & _ & Hmax).
  eexists _, _, _. split.
  { apply start_scraping_returns; [done|]. by rewrite Hmax. }
  cbn [emails_found set_is_scraping].
  destruct (poll_fields (iterations fuel (loop_entry self)).1)
    as (_ & _ & _ & _ & -> & _).
  pose proof (iterations_fetched fuel (loop_entry self)) as Hf.
  rewrite results_app, fetched_app. simpl. rewrite app_nil_r.
  split_and!.
  - destruct (iterations fuel (loop_entry self)). simpl.
    destruct Hf as (-> & _). done.
  - rewrite set_list_perm. apply NoDup_elements.
  - intros a. rewrite set_list_perm, elem_of_elements.
    pose proof (iterations_emails fuel (loop_entry self) a) as He.
    destruct (iterations fuel (loop_entry self)). simpl in *.
    rewrite He, Hemails. set_solver.
  - intros a. rewrite status_count_app.
    pose proof (iterations_count fuel (loop_entry self) a) as Hc.
    destruct (iterations fuel (loop_entry self)). simpl in *.
    destruct Hc as [_ ->]. rewrite Hemails.
    rewrite !status_count_cons_ne by (done || other_line).
    rewrite status_count_nil, Nat.add_0_r. apply decide_ext. set_solver.
  - intros k a. simpl.
    pose proof (iterations_count k (loop_entry self) a) as Hc.
    pose proof (iterations_emails k (loop_entry self) a) as He.
    destruct (iterations k (loop_entry self)) as [lk outk]. simpl in *.
    destruct Hc as [_ ->]. rewrite Hemails in *.
    case_decide as Hin; (split; [lia|]).
    + split; [intros _; set_solver|done].
    + split; [done|]. intros Hex. destruct Hin. set_solver.
  - intros s0 l1 a l2. apply add_emails_first_occurrence.
Qed.

(** C6.  When the request for the popped URL is not answered (a transport
    error, a timeout), or is answered with a status from 400 to 599, the
    statuses for which [raise_for_status] raises, the iteration emits the
    visiting line, the request, one error line made of the URL and the text
    of the exception, and the pause; it leaves [emails_found] unchanged and
    the frontier without the URL and with nothing added; the page counter
    is incremented; and the loop goes on from that state.  An answer with
    any other status, a 2xx one or not, is parsed as a page. *)
Theorem C6_failed_fetch_is_skipped :
  (∀ l url answer,
     frontier_fresh (scraper l) →
     loop_condition (poll l) = true →
     set_pop (iteration l) (urls_to_visit (scraper l)) = url →
     fetch url = received answer →
     failed answer →
     ∃ e,
       received answer = RequestException e ∧
       let l' :=
         {| scraper :=
              set_visited_urls ({[ url ]} ∪ visited_urls (scraper l))
                (set_urls_to_visit (urls_to_visit (scraper l) ∖ {[ url ]})
                                   (scraper l));
            pages_crawled := S (pages_crawled l);
            iteration := S (iteration l) |} in
       loop_body (poll l) =
         (l', [Status ("Visiting: " +:+ url); Get url;
               Status ("Error visiting " +:+ url +:+ ": " +:+ e); Sleep]) ∧
       emails_found (scraper l') = emails_found (scraper l) ∧
       urls_to_visit (scraper l') = urls_to_visit (scraper l) ∖ {[ url ]} ∧
       pages_crawled l' = S (pages_crawled l) ∧
       ∀ n, iterations (S n) l =
            ((iterations n l').1,
             [Status ("Visiting: " +:+ url); Get url;
              Status ("Error visiting " +:+ url +:+ ": " +:+ e); Sleep]
             ++ (iterations n l').2)) ∧
  (∀ final_url status_code reason new_emails hrefs,
     ¬ (400 ≤ status_code < 600) →
     received (Response final_url status_code reason new_emails hrefs) =
     Document new_emails hrefs).
Proof.
  split; [|apply received_parsed].
  intros l url answer Hfresh Hc Hpop Hfetch Hfailed.
  destruct (received_failed answer Hfailed) as [e He].
  exists e. split; [exact He|]. rewrite He in Hfetch. intros l'.
  assert (poll l = l) as Hpoll.
  { apply loop_condition_true in Hc as (_ & _ & Hrun).
    unfold poll in *. destruct (stop_requested (iteration l)); [|done].
    done. }
  rewrite Hpoll in *.
  assert (loop_body l =
          (l', [Status ("Visiting: " +:+ url); Get url;
                Status ("Error visiting " +:+ url +:+ ": " +:+ e); Sleep]))
    as Hbody.
  { apply loop_condition_true in Hc as (Hne & _ & _).
    pose proof (set_pop_elem (iteration l) _ Hne) as Hin. rewrite Hpop in Hin.
    unfold loop_body, dequeue. rewrite Hpop. cbn [visited_urls set_urls_to_visit].
    rewrite decide_True by set_solver.
    by rewrite (crawl_page_request_exception _ _ _ Hfetch). }
  split_and!; [done..|].
  intros n. by rewrite iterations_S, Hpoll, Hc, Hbody.
Qed.

(** C7.  A run started by [__init__] returns within 50 iterations of the
    loop, whatever the pages answer, whichever element the pops choose
    and whenever a stop is requested; its trace ends with the line
    ["Scraping finished."] followed by the call of the result callback on
    the list of [emails_found]; this is the only call of the result
    callback; and [is_scraping] is false afterwards. *)
Theorem C7_run_always_completes base self fuel :
  __init__ base = Ok self →
  50 ≤ fuel →
  ∃ s n loop_out,
    start_scraping fuel self =
      Some (s, n,
            loop_out ++ [Status "Scraping finished.";
                         Result (set_list (emails_found s))]) ∧
    results loop_out = [] ∧
    results (loop_out ++ [Status "Scraping finished.";
                          Result (set_list (emails_found s))]) =
      [set_list (emails_found s)] ∧
    is_scraping s = false ∧
    (∀ a, a ∈ emails_found s ↔
          ∃ url new_emails hrefs,
            url ∈ fetched loop_out ∧
            fetch url = Document new_emails hrefs ∧ a ∈ new_emails).
Proof.
  intros Hinit Hfuel. pose proof (init_fresh _ _ Hinit) as Hfresh.
  destruct (init_spec _ _ Hinit) as (_ & _ & Hemails & _ & _ & _ & Hmax).
  exists (set_is_scraping false
            (scraper (poll (iterations fuel (loop_entry self)).1))),
         (pages_crawled (poll (iterations fuel (loop_entry self)).1)),
         (iterations fuel (loop_entry self)).2.
  split.
  { apply start_scraping_returns; [done|]. by rewrite Hmax. }
  cbn [emails_found is_scraping set_is_scraping].
  destruct (poll_fields (iterations fuel (loop_entry self)).1)
    as (_ & _ & _ & _ & -> & _).
  pose proof (iterations_fetched fuel (loop_entry self)) as Hf.
  assert (results (iterations fuel (loop_entry self)).2 = []) as Hr.
  { destruct (iterations fuel (loop_entry self)). tauto. }
  rewrite results_app, Hr. split_and!; [done..|].
  intros a. pose proof (iterations_emails fuel (loop_entry self) a) as He.
  destruct (iterations fuel (loop_entry self)). simpl in *.
  rewrite He, Hemails. set_solver.
Qed.

End ClaimsRun.

(** *** The result shown, the seed, and the base of the links *)

Lemma sorted_spec (emails : list string) :
  Sorted String.le (sorted emails) ∧ sorted emails ≡ₚ emails.
Proof.
  split; [apply (Sorted_merge_sort String.le)|apply merge_sort_Permutation].
Qed.

(** The result of [sorted] does not depend on the order of its argument. *)
Lemma sorted_perm (l1 l2 : list string) : l1 ≡ₚ l2 → sorted l1 = sorted l2.
Proof.
  intros Hp. apply (Sorted_unique String.le); try apply sorted_spec.
  destruct (sorted_spec l1) as [_ ->], (sorted_spec l2) as [_ ->]. done.
Qed.

Lemma foldl_deliver_result ui out emails :
  results_textbox (foldl deliver ui (out ++ [Result emails])) =
  if bool_decide (emails ≠ []) then
    ("Found " +:+ pretty (length emails) +:+ " unique email(s):" +:+
     Str.newline +:+ Str.newline) +:+ email_lines (sorted emails)
  else "No emails found.".
Proof. by rewrite foldl_app. Qed.

Lemma crawl_page_starts `{W : World} self url :
  ∃ rest, (_crawl_page self url).2 =
          Status ("Visiting: " +:+ url) :: Get url :: rest.
Proof.
  unfold _crawl_page. destruct (fetch url) as [e|e|new_emails hrefs].
  - by eexists.
  - by eexists.
  - destruct (add_emails self new_emails) as [self1 found].
    destruct (add_links self1 hrefs) as [self2 raised]. by eexists.
Qed.

(** The lines of [display_results] are the addresses in the order given,
    each followed by a line feed. *)
Lemma email_lines_from text emails :
  foldl (λ text email, text +:+ email +:+ Str.newline) text emails =
  text +:+ String.concat "" (map (λ a, a +:+ String "010" "") emails).
Proof.
  revert text. induction emails as [|a l IH]; intros text.
  { simpl. by rewrite app_empty_r. }
  cbn [foldl map]. rewrite IH, app_assoc_string. f_equal.
  destruct l as [|b l]; [by rewrite app_empty_r|done].
Qed.

Lemma email_lines_concat emails :
  email_lines emails =
  String.concat "" (map (λ a, a +:+ String "010" "") emails).
Proof. apply (email_lines_from ""). Qed.

(** C8.  A run started by [__init__] calls the result callback once, as
    its last action, on a list that holds each address of [emails_found]
    once, in the order in which [list(set)] enumerates the set, sorted or
    not.  [display_results], the callback [run_scraper] installs, sorts
    that list: the text box then reads the heading, an empty line, and the
    addresses of [emails_found], each once, in ascending order, each on a
    line of its own; with no address it reads ["No emails found."]. *)
Theorem C8_results_shown_sorted `{W : World} base self fuel ui :
  __init__ base = Ok self →
  50 ≤ fuel →
  ∃ s before ui' shown,
    run_scraper fuel base ui =
      Ok (Some (s, before ++ [Result (set_list (emails_found s))], ui')) ∧
    results before = [] ∧
    NoDup (set_list (emails_found s)) ∧
    (∀ a, a ∈ set_list (emails_found s) ↔ a ∈ emails_found s) ∧
    shown = sorted (set_list (emails_found s)) ∧
    shown = sorted (elements (emails_found s)) ∧
    Sorted String.le shown ∧
    NoDup shown ∧
    (∀ a, a ∈ shown ↔ a ∈ emails_found s) ∧
    results_textbox ui' =
      if decide (emails_found s = ∅) then "No emails found."
      else ("Found " +:+ pretty (size (emails_found s)) +:+
            " unique email(s):" +:+ String "010" (String "010" "")) +:+
           String.concat "" (map (λ a, a +:+ String "010" "") shown).
Proof.
  intros Hinit Hfuel.
  destruct (run_ends base self fuel Hinit Hfuel)
    as (s & n & loop_out & Hrun & Hres).
  exists s, (loop_out ++ [Status "Scraping finished."]),
    (foldl deliver ui
       (loop_out ++ [Status "Scraping finished.";
                     Result (set_list (emails_found s))])),
    (sorted (set_list (emails_found s))).
  pose proof (set_list_perm (emails_found s)) as Hperm.
  destruct (sorted_spec (set_list (emails_found s))) as [Hsorted Hp].
  split_and!.
  - unfold run_scraper. rewrite Hinit, Hrun. by rewrite <-app_assoc.
  - rewrite results_app, Hres. done.
  - rewrite Hperm. apply NoDup_elements.
  - intros a. by rewrite Hperm, elem_of_elements.
  - done.
  - by apply sorted_perm.
  - done.
  - rewrite Hp, Hperm. apply NoDup_elements.
  - intros a. by rewrite Hp, Hperm, elem_of_elements.
  - replace (loop_out ++ [Status "Scraping finished.";
                          Result (set_list (emails_found s))])
      with ((loop_out ++ [Status "Scraping finished."]) ++
            [Result (set_list (emails_found s))])
      by (by rewrite <-app_assoc).
    rewrite foldl_deliver_result, email_lines_concat.
    assert (length (set_list (emails_found s)) = size (emails_found s)) as ->.
    { by rewrite Hperm. }
    destruct (decide (emails_found s = ∅)) as [He|He].
    + rewrite bool_decide_eq_false_2; [done|]. intros Hne. apply Hne.
      apply Permutation_nil_r. by rewrite Hperm, He, elements_empty.
    + rewrite bool_decide_eq_true_2; [done|]. intros Hnil. apply He.
      apply leibniz_equiv, elements_empty_inv.
      apply Permutation_nil_r. by rewrite <-Hperm, Hnil.
Qed.

(** C9.  [start_extraction] hands to the engine the stripped entry prefixed
    with ["https://"] when it starts with neither ["http://"] nor
    ["https://"], and the stripped entry itself otherwise; ["example.com"]
    becomes ["https://example.com"]; [__init__] makes that URL its
    [base_url] and the only element of the frontier, and, unless a stop is
    requested first, the run begins by visiting and requesting it.  The
    test is on these two texts as they are written: the entry
    [HTTP://example.com], whose scheme is [http] and whose host is
    [example.com], is prefixed too, and the scraper built from the result
    takes ["HTTP:"] for its domain. *)
Theorem C9_seed_normalised :
  (∀ entry,
     let domain := Str.strip_space entry in
     domain ≠ "" →
     (Str.startswith "http://" domain = false →
      Str.startswith "https://" domain = false →
      start_extraction entry = Some ("https://" +:+ domain)) ∧
     (Str.startswith "http://" domain = true ∨
      Str.startswith "https://" domain = true →
      start_extraction entry = Some domain)) ∧
  start_extraction "example.com" = Some "https://example.com" ∧
  start_extraction "https://example.com/" = Some "https://example.com/" ∧
  (∀ (W : World) entry base self,
     start_extraction entry = Some base →
     __init__ base = Ok self →
     base_url self = base ∧ urls_to_visit self = {[ base ]} ∧
     (stop_requested 0 = false →
      ∃ rest, (iterations 1 (loop_entry self)).2 =
              Status ("Visiting: " +:+ base) :: Get base :: rest)) ∧
  py_urlparse "HTTP://example.com" =
    Ok {| scheme := "http"; netloc := "example.com"; path := "";
          params := ""; query := ""; fragment := "" |} ∧
  start_extraction "HTTP://example.com" = Some "https://HTTP://example.com" ∧
  ∃ self,
    __init__ (W:=small_world) "https://HTTP://example.com" = Ok self ∧
    domain self = "HTTP:".
Proof.
  split_and!.
  - intros entry domain Hne. unfold start_extraction. fold domain.
    rewrite bool_decide_eq_false_2 by done. split.
    + by intros -> ->.
    + by intros [-> | ->]; rewrite ?orb_true_r.
  - by vm_compute.
  - by vm_compute.
  - intros W entry base self _ Hinit.
    destruct (init_spec _ _ Hinit) as (Hb & _ & _ & Hv & Hf & Hrun & Hmax).
    split_and!; [done..|]. intros Hstop.
    rewrite iterations_S, poll_not_requested by done.
    rewrite (proj2 (loop_condition_true (loop_entry self))).
    2:{ simpl. rewrite Hf, Hmax. split_and!; [set_solver|lia|done]. }
    cbn [fst snd]. unfold loop_body, dequeue. cbn [scraper loop_entry iteration].
    assert (set_pop 0 (urls_to_visit self) = base) as ->.
    { pose proof (set_pop_elem 0 (urls_to_visit self)) as Hin.
      rewrite Hf in *. apply (elem_of_singleton_1 (C:=gset string)), Hin.
      set_solver. }
    cbn [visited_urls set_urls_to_visit]. rewrite Hv.
    rewrite decide_True by set_solver.
    destruct (crawl_page_starts
                (set_visited_urls ({[base]} ∪ ∅)
                   (set_urls_to_visit (urls_to_visit self ∖ {[base]}) self))
                base) as [rest Hrest].
    destruct (_crawl_page _ base) as [crawled out]. simpl in *. subst out.
    by eexists.
  - by vm_compute.
  - by vm_compute.
  - eexists. split; by vm_compute.
Qed.

(** C1.  On a site whose page [/a/b.html] carries the link [c.html], the
    link is resolved against the seed [https://example.com/], not against
    the page: the run requests [https://example.com/c.html] and never
    [https://example.com/a/c.html], the URL the link denotes. *)
Theorem C1_links_resolved_against_seed :
  py_urljoin "https://example.com/a/b.html" "c.html" =
    Ok "https://example.com/a/c.html" ∧
  py_urljoin "https://example.com/" "c.html" =
    Ok "https://example.com/c.html" ∧
  ∃ s out ui,
    run_scraper (W:=nested_world) 50 "https://example.com/" started =
      Ok (Some (s, out, ui)) ∧
    fetched out =
      ["https://example.com/"; "https://example.com/a/b.html";
       "https://example.com/c.html"] ∧
    "https://example.com/a/c.html" ∉ fetched out.
Proof.
  split; [by vm_compute|]. split; [by vm_compute|].
  eexists _, _, _. split; [vm_compute; reflexivity|].
  split; [by vm_compute|]. compute_done.
Qed.

(** * Further properties of the code *)

(** ** The matcher *)

Lemma run_le c s : Re.run c s ≤ String.length s.
Proof. induction s as [|a s IH]; simpl; [done|]. destruct (c a); lia. Qed.

Lemma run_take c s j :
  j ≤ Re.run c s → Str.forallb c (Str.take j s) = true.
Proof.
  revert s. induction j as [|j IH]; intros [|a s] Hj; simpl in *; try done.
  destruct (c a) eqn:Ha; [|lia]. simpl. apply IH. lia.
Qed.

Lemma run_app_all c s t :
  Str.forallb c s = true → Re.run c (s +:+ t) = String.length s + Re.run c t.
Proof.
  induction s as [|a s IH]; [done|]. rewrite app_String. simpl.
  destruct (c a); [|done]. simpl. intros ?. by rewrite IH.
Qed.

Lemma first_down_sound rest lo k r :
  Re.first_down rest lo k = Some r → ∃ j, lo ≤ j ≤ k ∧ rest j = Some r.
Proof.
  induction k as [|k IH]; simpl.
  - destruct (0 <? lo) eqn:Hlo; [done|]. apply Nat.ltb_ge in Hlo.
    destruct (rest 0) eqn:E; [|done]. intros [= <-]. exists 0. split; [lia|done].
  - destruct (S k <? lo) eqn:Hlo; [done|]. apply Nat.ltb_ge in Hlo.
    destruct (rest (S k)) eqn:E.
    + intros [= <-]. exists (S k). split; [lia|done].
    + intros (j & ? & ?)%IH. exists j. split; [lia|done].
Qed.

(** The repetition settles on the largest count for which the rest of the
    pattern matches. *)
Lemma first_down_first rest lo k j r :
  lo ≤ j ≤ k → (∀ i, j < i ≤ k → rest i = None) → rest j = Some r →
  Re.first_down rest lo k = Some r.
Proof.
  intros [Hlo Hjk] Hnone Hj. induction k as [|k IH].
  - assert (j = 0) as -> by lia. simpl.
    rewrite (proj2 (Nat.ltb_ge 0 lo)) by lia. by rewrite Hj.
  - simpl. rewrite (proj2 (Nat.ltb_ge (S k) lo)) by lia.
    destruct (decide (j = S k)) as [->|Hne]; [by rewrite Hj|].
    rewrite Hnone by lia. apply IH; [lia|]. intros i ?. apply Hnone. lia.
Qed.

Lemma first_down_none rest lo k :
  (∀ i, i ≤ k → rest i = None) → Re.first_down rest lo k = None.
Proof.
  intros Hnone. induction k as [|k IH]; simpl.
  - destruct (0 <? lo); [done|]. by rewrite Hnone.
  - destruct (S k <? lo); [done|]. rewrite Hnone by lia.
    apply IH. intros i ?. apply Hnone. lia.
Qed.

(** What [match_here] returns is the length of a prefix of the text that
    the pattern matches. *)
Lemma match_here_sound pattern s len :
  Re.match_here pattern s = Some len →
  len ≤ String.length s ∧ matches pattern (Str.take len s).
Proof.
  revert s len. induction pattern as [|[c|m c] rest IH]; intros s len; simpl.
  - intros [= <-]. split; [lia|]. by destruct s.
  - destruct s as [|a s]; [done|]. destruct (c a) eqn:Ha; [|done].
    destruct (Re.match_here rest s) as [r|] eqn:Hr; [|done].
    intros [= <-]. destruct (IH _ _ Hr) as [Hle Hm]. split; [simpl; lia|].
    simpl. eauto.
  - intros (j & [Hlo Hj] & Hrest)%first_down_sound.
    destruct (Re.match_here rest (Str.drop j s)) as [r|] eqn:Hr; [|done].
    injection Hrest as <-. destruct (IH _ _ Hr) as [Hle Hm].
    pose proof (run_le c s) as Hrun. rewrite length_drop_string in Hle.
    split; [lia|]. exists (Str.take j s), (Str.take r (Str.drop j s)).
    split; [apply take_add_string|]. split; [by apply run_take|].
    split; [|done]. rewrite length_take_string; lia.
Qed.

Lemma weave_cons g gaps m found :
  weave (g :: gaps) (m :: found) = g +:+ m +:+ weave gaps found.
Proof. reflexivity. Qed.

Lemma weave_cons_char a g gaps found :
  weave (String a g :: gaps) found = String a (weave (g :: gaps) found).
Proof. by destruct found. Qed.

(** [findall] cuts the text into gaps and matches, from left to right. *)
Lemma findall_from_spec pattern skip s :
  skip ≤ String.length s →
  let found := Re.findall_from pattern skip s in
  Forall (matches pattern) found ∧
  ∃ gaps, length gaps = S (length found) ∧
          Str.drop skip s = weave gaps found.
Proof.
  revert skip. induction s as [|a s IH]; intros skip Hskip; simpl in *.
  - assert (skip = 0) as -> by lia.
    destruct (Re.match_here pattern "") as [len|] eqn:Hm.
    + apply match_here_sound in Hm as [Hle Hm]. simpl in Hle.
      assert (len = 0) as -> by lia. split; [by repeat constructor|].
      by exists [""; ""].
    + split; [constructor|]. by exists [""].
  - destruct skip as [|skip].
    + destruct (Re.match_here pattern (String a s)) as [len|] eqn:Hm.
      * apply match_here_sound in Hm as [Hle Hm]. simpl in Hle.
        destruct (IH (pred len)) as (Hall & gaps & Hlen & Hw); [lia|].
        split; [by constructor|]. destruct len as [|len]; simpl in *.
        -- destruct gaps as [|g gaps]; [done|]. simpl in Hlen.
           exists ("" :: String a g :: gaps). split; [simpl; lia|].
           rewrite weave_cons, !app_empty_l, weave_cons_char. by rewrite <-Hw.
        -- exists ("" :: gaps). split; [simpl; lia|].
           rewrite weave_cons, app_empty_l, app_String, <-Hw.
           by rewrite take_drop_string.
      * destruct (IH 0) as (Hall & gaps & Hlen & Hw); [lia|].
        split; [done|]. destruct gaps as [|g gaps]; [done|].
        exists (String a g :: gaps). split; [done|].
        rewrite weave_cons_char. by rewrite <-Hw.
    + apply IH. lia.
Qed.

Lemma matches_email_shaped a : matches email_regex a → email_shaped a.
Proof.
  simpl.
  intros (local & v & -> & Hlocal & Hl & x & v1 & -> & Hx &
          domain & v2 & -> & Hdomain & Hd & y & v3 & -> & Hy &
          tld & v4 & -> & Htld & Ht & ->).
  apply bool_decide_eq_true in Hx as ->, Hy as ->.
  exists local, domain, tld. rewrite app_empty_r. by split_and!.
Qed.

Lemma email_shaped_contains_at a :
  email_shaped a → Str.contains "@" a = true.
Proof.
  intros (local & domain & tld & -> & _). rewrite contains_app.
  apply orb_true_iff. by right.
Qed.

Lemma weave_contains c gaps found :
  length gaps = S (length found) →
  Str.contains c (weave gaps found) = false →
  Forall (λ m, Str.contains c m = false) found.
Proof.
  revert gaps. induction found as [|m found IH]; intros gaps Hlen Hc.
  { constructor. }
  destruct gaps as [|g gaps]; [done|]. simpl in *.
  rewrite !contains_app in Hc.
  apply orb_false_iff in Hc as [_ [Hm Hrest]%orb_false_iff].
  constructor; [done|]. apply (IH gaps); [lia|done].
Qed.

Lemma find_emails_no_at skip text :
  skip ≤ String.length text →
  Str.contains "@" text = false →
  Re.findall_from email_regex skip text = [].
Proof.
  intros Hskip Hc.
  destruct (findall_from_spec email_regex skip text Hskip)
    as (Hall & gaps & Hlen & Hw).
  destruct (Re.findall_from email_regex skip text) as [|m found]; [done|].
  exfalso. apply Forall_cons in Hall as [Hm _].
  apply matches_email_shaped, email_shaped_contains_at in Hm.
  assert (Str.contains "@" (Str.drop skip text) = false) as Hd.
  { rewrite <-(take_drop_string skip text), contains_app in Hc.
    by apply orb_false_iff in Hc as [_ ?]. }
  rewrite Hw in Hd. apply weave_contains in Hd; [|done].
  apply Forall_cons in Hd as [Hd _]. congruence.
Qed.

Lemma match_here_exactly c rest a s :
  Re.match_here (Re.Exactly c :: rest) (String a s) =
  if c a then S <$> Re.match_here rest s else None.
Proof. reflexivity. Qed.

Lemma match_here_at_least m c rest s :
  Re.match_here (Re.AtLeast m c :: rest) s =
  Re.first_down (λ k, Nat.add k <$> Re.match_here rest (Str.drop k s))
                m (Re.run c s).
Proof. reflexivity. Qed.

Lemma findall_from_String pattern a s :
  Re.findall_from pattern 0 (String a s) =
  match Re.match_here pattern (String a s) with
  | Some len =>
      Str.take len (String a s) :: Re.findall_from pattern (pred len) s
  | None => Re.findall_from pattern 0 s
  end.
Proof. reflexivity. Qed.

Lemma drop_app_lt c q rest i :
  i < String.length q → Str.contains c q = false →
  ∃ x r, Str.drop i (q +:+ rest) = String x r ∧ x ≠ c.
Proof.
  revert i. induction q as [|a q IH]; intros i Hi Hc; simpl in *; [lia|].
  destruct (decide (a = c)) as [|Hne]; [done|].
  destruct i as [|i]; [by eexists _, _|]. apply IH; [lia|done].
Qed.

Lemma drop_app_class c t rest i :
  i < String.length t → Str.forallb c t = true →
  ∃ x r, Str.drop i (t +:+ rest) = String x r ∧ c x = true.
Proof.
  revert i. induction t as [|a t IH]; intros i Hi Hc; simpl in *; [lia|].
  apply andb_true_iff in Hc as [Ha Hc].
  destruct i as [|i]; [by eexists _, _|]. apply IH; [lia|done].
Qed.

Lemma run_stops c q rest :
  q ≠ "" → ends_in c q = false → Re.run c (q +:+ rest) < String.length q.
Proof.
  induction q as [|a q IH]; intros Hq He; [done|].
  rewrite app_String. cbn [Re.run String.length].
  destruct (c a) eqn:Ha; [|lia].
  assert (q ≠ "") as Hne by (intros ->; simpl in He; congruence).
  assert (ends_in c q = false) as He' by (by destruct q).
  specialize (IH Hne He'). lia.
Qed.

(** No address starts inside a stretch of text without [@] that does not
    end in a character of the local part. *)
Lemma no_match_in_gap q rest :
  q ≠ "" → Str.contains "@" q = false → ends_in local_char q = false →
  Re.match_here email_regex (q +:+ rest) = None.
Proof.
  intros Hq Hc He. unfold email_regex. rewrite match_here_at_least.
  apply first_down_none. intros i Hi.
  pose proof (run_stops local_char q rest Hq He) as Hrun.
  destruct (drop_app_lt "@" q rest i) as (x & r & -> & Hx); [lia|done|].
  rewrite match_here_exactly. by rewrite bool_decide_eq_false_2.
Qed.

Lemma scan_gap pre rest :
  Str.contains "@" pre = false → ends_in local_char pre = false →
  Re.findall_from email_regex 0 (pre +:+ rest) =
  Re.findall_from email_regex 0 rest.
Proof.
  induction pre as [|a pre IH]; intros Hc He; [done|].
  pose proof (no_match_in_gap (String a pre) rest) as Hnone.
  rewrite app_String in *. rewrite findall_from_String.
  rewrite Hnone by done. apply IH.
  - simpl in Hc. by destruct (decide (a = "@"%char)).
  - destruct pre; [done|exact He].
Qed.

Lemma findall_skip pattern u v :
  Re.findall_from pattern (String.length u) (u +:+ v) =
  Re.findall_from pattern 0 v.
Proof. induction u as [|a u IH]; [done|]. rewrite app_String. exact IH. Qed.

Lemma run_alpha_domain post :
  Re.run domain_char post = 0 → Re.run Str.is_ascii_alpha post = 0.
Proof.
  destruct post as [|x post]; [done|]. simpl.
  destruct (Str.is_ascii_alpha x) eqn:Hx; [|done].
  unfold domain_char, is_alnum. unfold Str.is_ascii_alpha in Hx.
  apply orb_true_iff in Hx as [-> | ->]; simpl; by rewrite ?orb_true_r.
Qed.

Lemma alpha_domain_string t :
  Str.forallb Str.is_ascii_alpha t = true → Str.forallb domain_char t = true.
Proof.
  induction t as [|x t IH]; [done|]. simpl.
  intros [Hx Ht]%andb_true_iff. rewrite IH by done.
  unfold domain_char, is_alnum. unfold Str.is_ascii_alpha in Hx.
  apply orb_true_iff in Hx as [-> | ->]; simpl; by rewrite ?orb_true_r.
Qed.

Lemma alpha_not_dot x : Str.is_ascii_alpha x = true → x ≠ "."%char.
Proof. by intros Hx ->. Qed.

(** The match of the pattern at the start of a well-formed address that is
    followed by a character outside the domain class is the address. *)
Lemma match_here_address local domain tld post :
  1 ≤ String.length local → Str.forallb local_char local = true →
  1 ≤ String.length domain → Str.forallb domain_char domain = true →
  2 ≤ String.length tld → Str.forallb Str.is_ascii_alpha tld = true →
  Re.run domain_char post = 0 →
  Re.match_here email_regex
    (local +:+ "@" +:+ domain +:+ "." +:+ tld +:+ post) =
  Some (String.length (local +:+ "@" +:+ domain +:+ "." +:+ tld)).
Proof.
  intros Hl Hlocal Hd Hdomain Ht Htld Hpost.
  assert (Re.match_here [Re.AtLeast 2 Str.is_ascii_alpha] (tld +:+ post) =
          Some (String.length tld)) as Htail.
  { rewrite match_here_at_least, run_app_all by done.
    rewrite (run_alpha_domain post Hpost), Nat.add_0_r.
    apply (first_down_first _ 2 _ (String.length tld)); [lia|intros; lia|].
    rewrite drop_app_length. simpl. f_equal. lia. }
  assert (Re.match_here
            [Re.AtLeast 1 domain_char;
             Re.Exactly (λ a, bool_decide (a = "."%char));
             Re.AtLeast 2 Str.is_ascii_alpha]
            (domain +:+ "." +:+ tld +:+ post) =
          Some (String.length domain + S (String.length tld))) as Hmid.
  { rewrite match_here_at_least, run_app_all by done.
    change ("." +:+ tld +:+ post) with (String "." (tld +:+ post)).
    cbn [Re.run]. change (domain_char ".") with true. cbn iota.
    rewrite run_app_all by by apply alpha_domain_string.
    rewrite Hpost, Nat.add_0_r.
    apply (first_down_first _ 1 _ (String.length domain)); [lia| |].
    - intros i [Hlo Hhi].
      replace i with (String.length domain + S (i - S (String.length domain)))
        by lia.
      rewrite drop_app_add. cbn [Str.drop].
      destruct (decide (i - S (String.length domain) < String.length tld))
        as [Hin|Hout].
      + destruct (drop_app_class Str.is_ascii_alpha tld post _ Hin Htld)
          as (x & r & -> & Hx).
        rewrite match_here_exactly.
        by rewrite bool_decide_eq_false_2 by by apply alpha_not_dot.
      + replace (i - S (String.length domain)) with (String.length tld)
          by lia.
        rewrite drop_app_length.
        destruct post as [|x post]; [done|].
        rewrite match_here_exactly. simpl in Hpost.
        destruct (decide (x = "."%char)) as [->|Hne]; [done|].
        by rewrite bool_decide_eq_false_2.
    - rewrite drop_app_length.
      change ("." +:+ tld +:+ post) with (String "." (tld +:+ post)).
      rewrite match_here_exactly. cbn [bool_decide]. simpl bool_decide.
      by rewrite Htail. }
  unfold email_regex. rewrite match_here_at_least, run_app_all by done.
  change ("@" +:+ domain +:+ "." +:+ tld +:+ post)
    with (String "@" (domain +:+ "." +:+ tld +:+ post)).
  cbn [Re.run]. change (local_char "@") with false. cbn iota.
  rewrite Nat.add_0_r.
  rewrite (first_down_first _ 1 _ (String.length local)
             (String.length local +
              S (String.length domain + S (String.length tld))));
    [|lia|intros; lia|].
  - f_equal. rewrite !length_app_string. simpl. lia.
  - rewrite drop_app_length, match_here_exactly. simpl bool_decide.
    by rewrite Hmid.
Qed.

(** ** [_find_emails_on_page] *)

(** X1.  Every string [_find_emails_on_page] returns has the form
    [local@domain.tld]: a non-empty local part of letters, digits and
    [._%+-], a non-empty domain of letters, digits, [.] and [-], and a last
    segment of at least two letters. *)
Theorem find_emails_shaped text a :
  a ∈ _find_emails_on_page text → email_shaped a.
Proof.
  intros Hin.
  destruct (findall_from_spec email_regex 0 text) as [Hall _]; [lia|].
  apply matches_email_shaped. by eapply Forall_forall in Hall.
Qed.

(** X2.  The strings [_find_emails_on_page] returns are pieces of the page
    text, in the order of the text and without overlap: the text is a gap,
    the first address, a gap, the second address, and so on. *)
Theorem find_emails_in_order text :
  ∃ gaps,
    length gaps = S (length (_find_emails_on_page text)) ∧
    text = weave gaps (_find_emails_on_page text).
Proof.
  destruct (findall_from_spec email_regex 0 text) as [_ Hw]; [lia|].
  exact Hw.
Qed.

(** X3.  On a text without [@], the empty text included,
    [_find_emails_on_page] returns the empty list. *)
Theorem find_emails_needs_at text :
  Str.contains "@" text = false → _find_emails_on_page text = [].
Proof. apply find_emails_no_at. lia. Qed.

(** X4.  A well-formed address is found, whole and alone, when it stands
    between a text without [@] that does not end in a character of the
    local part and a text without [@] that does not start with a character
    of the domain. *)
Theorem find_emails_delimited pre local domain tld post :
  1 ≤ String.length local → Str.forallb local_char local = true →
  1 ≤ String.length domain → Str.forallb domain_char domain = true →
  2 ≤ String.length tld → Str.forallb Str.is_ascii_alpha tld = true →
  Str.contains "@" pre = false → ends_in local_char pre = false →
  Str.contains "@" post = false → Re.run domain_char post = 0 →
  _find_emails_on_page
    (pre +:+ (local +:+ "@" +:+ domain +:+ "." +:+ tld) +:+ post) =
  [local +:+ "@" +:+ domain +:+ "." +:+ tld].
Proof.
  intros Hl Hlocal Hd Hdomain Ht Htld Hpre Hends Hpost Hstart.
  unfold _find_emails_on_page, Re.findall. rewrite scan_gap by done.
  pose proof (match_here_address local domain tld post
                Hl Hlocal Hd Hdomain Ht Htld Hstart) as Hm.
  set (address := local +:+ "@" +:+ domain +:+ "." +:+ tld) in *.
  assert (address +:+ post =
          local +:+ "@" +:+ domain +:+ "." +:+ tld +:+ post) as Happ.
  { unfold address. by rewrite !app_assoc_string. }
  rewrite <-Happ in Hm.
  destruct address as [|c rest] eqn:Ha.
  { destruct local; simpl in *; [lia|done]. }
  rewrite app_String in *. rewrite findall_from_String, Hm.
  rewrite <-app_String, take_app_length. f_equal.
  cbn [String.length pred]. rewrite findall_skip.
  apply find_emails_no_at; [lia|done].
Qed.

(** ** The loop, once more *)

Section Further.
Context `{W : World}.

Lemma links_to_ext self self' page url :
  base_url self' = base_url self → domain self' = domain self →
  links_to self page url → links_to self' page url.
Proof. unfold links_to. by intros -> ->. Qed.

Lemma offered_links_to self page new_emails hrefs url :
  fetch page = Document new_emails hrefs → offered self hrefs url →
  links_to self page url ∧ url ∉ visited_urls self.
Proof.
  intros Hfetch (done_ & href & rest & -> & Hdone & Hjoin & Hvalid).
  apply _is_valid_url_true in Hvalid
    as (parsed & Hparse & Hnet & Hscheme & Hnew).
  split; [|done].
  by exists new_emails, (done_ ++ href :: rest), done_, href, rest, parsed.
Qed.

Lemma links_to_offered self page url :
  links_to self page url → url ∉ visited_urls self →
  ∃ new_emails hrefs,
    fetch page = Document new_emails hrefs ∧ offered self hrefs url.
Proof.
  intros (new_emails & hrefs & done_ & href & rest & parsed & Hfetch & -> &
          Hdone & Hjoin & Hparse & Hnet & Hscheme) Hnew.
  exists new_emails, (done_ ++ href :: rest). split; [done|].
  exists done_, href, rest. split_and!; [done|done|done|].
  apply _is_valid_url_true. by exists parsed.
Qed.

(** What an iteration does to the two sets: it drops the popped URL, and
    when it had not been visited it marks it visited, requests it, and adds
    to the frontier the links of the page that were never visited. *)
Lemma loop_body_sets l :
  let cur := set_pop (iteration l) (urls_to_visit (scraper l)) in
  let s := scraper l in
  let s' := scraper (loop_body l).1 in
  (cur ∈ visited_urls s ∧ visited_urls s' = visited_urls s ∧
   urls_to_visit s' = urls_to_visit s ∖ {[ cur ]} ∧
   (loop_body l).2 = []) ∨
  ((cur ∉ visited_urls s) ∧ visited_urls s' = {[ cur ]} ∪ visited_urls s ∧
   fetched (loop_body l).2 = [cur] ∧
   ∀ u, u ∈ urls_to_visit s' ↔
        (u ∈ urls_to_visit s ∧ u ≠ cur) ∨
        (links_to s cur u ∧ u ≠ cur ∧ u ∉ visited_urls s)).
Proof.
  cbv zeta. unfold loop_body. pose proof (dequeue_spec l) as H.
  destruct (dequeue l) as [[marked url] fresh]. simpl in H.
  destruct H as (-> & Hf & Hb & Hd & _ & _ & _ & Hv).
  set (cur := set_pop (iteration l) (urls_to_visit (scraper l))) in *.
  destruct fresh; [right|left]; destruct Hv as [Hcur Hv].
  - pose proof (crawl_page_fields marked cur) as Hfields.
    pose proof (crawl_page_events marked cur) as [Hg _].
    pose proof (crawl_page_frontier marked cur) as Hfr.
    destruct (_crawl_page marked cur) as [crawled out].
    cbn [fst snd scraper] in *.
    destruct Hfields as (Hb' & Hd' & Hv' & _).
    split_and!; [done|congruence|by rewrite fetched_app, Hg|].
    intros u. rewrite Hfr, Hf. split.
    + intros [Hin|(e & h & Hfetch & Hoff)]; [left; set_solver|right].
      destruct (offered_links_to _ _ _ _ _ Hfetch Hoff) as [Hl Hn].
      rewrite Hv in Hn. split; [|set_solver].
      eapply links_to_ext; [..|exact Hl]; congruence.
    + intros [[? ?]|(Hl & ? & ?)]; [left; set_solver|right].
      apply (links_to_offered marked).
      * eapply links_to_ext; [..|exact Hl]; congruence.
      * rewrite Hv. set_solver.
  - cbn [fst snd scraper]. split_and!; done.
Qed.

Lemma loop_body_request l u :
  loop_condition l = true → u ∈ fetched (loop_body l).2 →
  u ∈ urls_to_visit (scraper l).
Proof.
  intros (Hne & _)%loop_condition_true.
  pose proof (set_pop_elem (iteration l) _ Hne) as Hpop.
  destruct (loop_body_sets l) as [(_ & _ & _ & ->)|(_ & _ & -> & _)].
  - by intros ?%elem_of_nil.
  - by intros [->|?%elem_of_nil]%elem_of_cons.
Qed.

Lemma iterations_length n l : length (fetched (iterations n l).2) ≤ n.
Proof.
  revert l. induction n as [|n IH]; intros l; [done|].
  rewrite iterations_S. destruct (loop_condition (poll l)); [|simpl; lia].
  cbn [fst snd]. rewrite fetched_app, length_app.
  specialize (IH (loop_body (poll l)).1).
  destruct (loop_body_sets (poll l)) as [(_ & _ & _ & ->)|(_ & _ & -> & _)];
    simpl; lia.
Qed.

(** The visited URLs are those visited before and those requested. *)
Lemma iterations_visited n l :
  visited_urls (scraper (iterations n l).1) =
  visited_urls (scraper l) ∪ list_to_set (fetched (iterations n l).2).
Proof.
  revert l. induction n as [|n IH]; intros l.
  { simpl. set_solver. }
  rewrite iterations_S.
  destruct (poll_fields l) as (_ & _ & _ & _ & _ & Hv & _).
  destruct (loop_condition (poll l)).
  2:{ cbn [fst snd]. rewrite Hv. simpl. set_solver. }
  cbn [fst snd]. rewrite IH, fetched_app.
  destruct (loop_body_sets (poll l)) as [(_ & -> & _ & ->)|(_ & -> & -> & _)];
    rewrite Hv; simpl; set_solver.
Qed.

(** *** Stopping *)

Lemma poll_stops l :
  stop_requested (iteration l) = true → loop_condition (poll l) = false.
Proof.
  intros H. unfold poll. rewrite H. unfold loop_condition. simpl.
  by rewrite andb_false_r.
Qed.

(** The loop does not go past the test at which a stop is requested. *)
Lemma iterations_stop n l :
  stop_requested (iteration l + n) = true →
  loop_condition (poll (iterations n l).1) = false.
Proof.
  revert l. induction n as [|n IH]; intros l Hstop.
  { rewrite Nat.add_0_r in Hstop. by apply poll_stops. }
  rewrite iterations_S. destruct (loop_condition (poll l)) eqn:Hc.
  2:{ cbn [fst]. by rewrite poll_idemp. }
  cbn [fst]. apply IH.
  destruct (loop_body_fields (poll l)) as (-> & _).
  destruct (poll_fields l) as (_ & -> & _).
  by replace (S (iteration l) + n) with (iteration l + S n) by lia.
Qed.

(** Once the loop has ended, more iterations change nothing. *)
Lemma iterations_ended k m l :
  loop_condition (poll (iterations k l).1) = false →
  poll (iterations (k + m) l).1 = poll (iterations k l).1 ∧
  (iterations (k + m) l).2 = (iterations k l).2.
Proof.
  intros Hc. rewrite iterations_add. cbn [fst snd].
  destruct m as [|m]; [by rewrite app_nil_r|].
  rewrite iterations_S, Hc. cbn [fst snd].
  by rewrite poll_idemp, app_nil_r.
Qed.

Lemma start_scraping_ended k fuel self :
  loop_condition (poll (iterations k (loop_entry self)).1) = false →
  k ≤ fuel → start_scraping fuel self = start_scraping k self.
Proof.
  intros Hc Hle. replace fuel with (k + (fuel - k)) by lia.
  rewrite !start_scraping_eq. cbv zeta.
  destruct (iterations_ended k (fuel - k) (loop_entry self) Hc) as [-> ->].
  done.
Qed.

Lemma start_scraping_requests fuel self s n out :
  start_scraping fuel self = Some (s, n, out) →
  let l := poll (iterations fuel (loop_entry self)).1 in
  loop_condition l = false ∧
  s = set_is_scraping false (scraper l) ∧
  n = length (fetched (iterations fuel (loop_entry self)).2) ∧
  out = (iterations fuel (loop_entry self)).2 ++
        [Status "Scraping finished.";
         Result (set_list (emails_found (scraper l)))] ∧
  fetched out = fetched (iterations fuel (loop_entry self)).2.
Proof.
  rewrite start_scraping_eq. cbv zeta.
  destruct (loop_condition _) eqn:Hc; [done|]. intros [= <- <- <-].
  pose proof (iterations_fetched fuel (loop_entry self)) as Hf.
  destruct (poll_fields (iterations fuel (loop_entry self)).1) as (-> & _).
  destruct (iterations fuel (loop_entry self)) as [l out]. cbn [fst snd] in *.
  destruct Hf as (_ & _ & _ & _ & ->).
  split_and!; [done|done|done|done|].
  by rewrite fetched_app, app_nil_r.
Qed.

(** X5.  A call of [stop_scraping] ends the run: when it takes effect at the
    [k]-th reading of the loop condition, [start_scraping] returns after at
    most [k] requests, with [is_scraping] false. *)
Theorem stop_ends_run self k fuel :
  stop_requested k = true → k ≤ fuel →
  ∃ s n out,
    start_scraping fuel self = Some (s, n, out) ∧
    is_scraping s = false ∧ n = length (fetched out) ∧ n ≤ k.
Proof.
  intros Hstop Hle.
  pose proof (iterations_stop k (loop_entry self) Hstop) as Hc.
  rewrite (start_scraping_ended k fuel self Hc Hle).
  destruct (start_scraping k self) as [[[s n] out]|] eqn:Hrun.
  2:{ rewrite start_scraping_eq in Hrun. cbv zeta in Hrun.
      by rewrite Hc in Hrun. }
  exists s, n, out. split; [done|].
  apply start_scraping_requests in Hrun as (_ & -> & -> & _ & ->).
  split_and!; [done|done|]. apply iterations_length.
Qed.

(** X6.  The set [visited_urls] holds, when a run started by [__init__]
    has returned, exactly the URLs that were requested, and their number
    is the page count. *)
Theorem visited_is_requested base self fuel :
  __init__ base = Ok self → 50 ≤ fuel →
  ∃ s n out,
    start_scraping fuel self = Some (s, n, out) ∧
    visited_urls s = list_to_set (fetched out) ∧
    size (visited_urls s) = n.
Proof.
  intros Hinit Hfuel. destruct (run_ends _ _ _ Hinit Hfuel)
    as (s & n & loop_out & Hrun & _).
  eexists _, _, _. split; [exact Hrun|].
  destruct (init_spec _ _ Hinit) as (_ & _ & _ & Hv & _).
  apply start_scraping_requests in Hrun as (_ & -> & -> & _ & ->).
  pose proof (iterations_visited fuel (loop_entry self)) as Hvis.
  pose proof (iterations_fetched fuel (loop_entry self)) as Hf.
  destruct (poll_fields (iterations fuel (loop_entry self)).1)
    as (_ & _ & _ & _ & _ & Hp & _).
  destruct (iterations fuel (loop_entry self)) as [l out].
  cbn [fst snd] in *. destruct Hf as (_ & _ & Hnd & _).
  assert (visited_urls (set_is_scraping false (scraper (poll l))) =
          list_to_set (fetched out)) as Heq.
  { cbn [visited_urls set_is_scraping]. rewrite Hp, Hvis. cbn [scraper loop_entry].
    rewrite Hv. set_solver. }
  split; [exact Heq|]. rewrite Heq. by apply size_list_to_set.
Qed.

(** *** Where the requests come from *)

Lemma poll_linked l :
  frontier_linked (scraper l) → frontier_linked (scraper (poll l)).
Proof.
  unfold frontier_linked.
  destruct (poll_fields l) as (_ & _ & Hb & Hd & _ & -> & -> & _).
  intros H u Hu. destruct (H u Hu) as [->|(page & ? & Hl)]; [by left|right].
  exists page. split; [done|]. eapply links_to_ext; [..|exact Hl]; done.
Qed.

Lemma loop_body_linked l :
  frontier_linked (scraper l) → frontier_linked (scraper (loop_body l).1).
Proof.
  intros Hl u Hu. destruct (loop_body_fields l) as (_ & Hb & Hd & _).
  rewrite Hb.
  destruct (loop_body_sets l) as [(_ & Hv & Hf & _)|(_ & Hv & _ & Hf)].
  - rewrite Hf in Hu.
    destruct (Hl u) as [->|(page & ? & Hlink)]; [set_solver|by left|right].
    exists page. rewrite Hv. split; [done|].
    eapply links_to_ext; [..|exact Hlink]; done.
  - apply Hf in Hu as [[Hu _]|(Hlink & _ & _)].
    + destruct (Hl u Hu) as [->|(page & ? & Hlink)]; [by left|right].
      exists page. rewrite Hv. split; [set_solver|].
      eapply links_to_ext; [..|exact Hlink]; done.
    + right. eexists. rewrite Hv. split; [by apply elem_of_union_l,
        elem_of_singleton|].
      eapply links_to_ext; [..|exact Hlink]; done.
Qed.

Lemma iterations_requests n l u :
  frontier_linked (scraper l) → u ∈ fetched (iterations n l).2 →
  u = base_url (scraper l) ∨
  ∃ page, page ∈ visited_urls (scraper (iterations n l).1) ∧
          links_to (scraper l) page u.
Proof.
  revert l. induction n as [|n IH]; intros l Hl.
  { by intros ?%elem_of_nil. }
  rewrite iterations_S.
  destruct (poll_fields l) as (_ & _ & Hb & Hd & _ & Hv & Hf & _).
  destruct (loop_condition (poll l)) eqn:Hc.
  2:{ by intros ?%elem_of_nil. }
  cbn [fst snd]. rewrite fetched_app.
  pose proof (iterations_visited n (loop_body (poll l)).1) as Hvis.
  destruct (loop_body_fields (poll l)) as (_ & Hb1 & Hd1 & _).
  intros [Hu|Hu]%elem_of_app.
  - apply loop_body_request in Hu; [|done]. rewrite Hf in Hu.
    destruct (Hl u Hu) as [->|(page & Hpage & Hlink)]; [by left|right].
    exists page. split; [|done]. rewrite Hvis.
    destruct (loop_body_sets (poll l)) as [(_ & -> & _)|(_ & -> & _)];
      rewrite Hv; set_solver.
  - apply IH in Hu as [->|(page & Hpage & Hlink)].
    + left. congruence.
    + right. exists page. split; [done|].
      eapply links_to_ext; [..|exact Hlink]; congruence.
    + by apply loop_body_linked, poll_linked.
Qed.

(** X7.  Every URL a run started by [__init__] requests is the seed or a
    link of a page that the run requested: a link that [urljoin] resolved
    against the seed to that URL, which has the netloc of the seed and the
    scheme [http] or [https]. *)
Theorem requests_are_links base self fuel :
  __init__ base = Ok self → 50 ≤ fuel →
  ∃ s n out,
    start_scraping fuel self = Some (s, n, out) ∧
    ∀ url, url ∈ fetched out →
      url = base ∨ ∃ page, page ∈ fetched out ∧ links_to self page url.
Proof.
  intros Hinit Hfuel. destruct (run_ends _ _ _ Hinit Hfuel)
    as (s & n & loop_out & Hrun & _).
  eexists _, _, _. split; [exact Hrun|].
  destruct (init_spec _ _ Hinit) as (Hb & _ & _ & Hv & Hf & _).
  apply start_scraping_requests in Hrun as (_ & _ & _ & _ & ->).
  intros url Hurl.
  apply iterations_requests in Hurl as [->|(page & Hpage & Hlink)].
  - by left.
  - right. exists page. split; [|done].
    rewrite iterations_visited in Hpage. cbn [scraper loop_entry] in Hpage.
    rewrite Hv in Hpage. set_solver.
  - intros u. cbn [scraper loop_entry]. rewrite Hf, Hb.
    intros ->%elem_of_singleton. by left.
Qed.

(** *** Following the links *)

Lemma poll_followed l :
  links_followed (scraper l) → links_followed (scraper (poll l)).
Proof.
  unfold links_followed.
  destruct (poll_fields l) as (_ & _ & Hb & Hd & _ & -> & -> & _).
  rewrite Hb. intros [Hseed H]. split; [done|]. intros page u Hpage Hl.
  apply (H page u Hpage). eapply links_to_ext; [..|exact Hl]; done.
Qed.

Lemma loop_body_followed l :
  urls_to_visit (scraper l) ≠ ∅ →
  links_followed (scraper l) → links_followed (scraper (loop_body l).1).
Proof.
  intros Hne [Hseed H]. destruct (loop_body_fields l) as (_ & Hb & Hd & _).
  pose proof (set_pop_elem (iteration l) _ Hne) as Hpop.
  unfold links_followed. rewrite Hb.
  assert (∀ page u, links_to (scraper (loop_body l).1) page u →
                    links_to (scraper l) page u) as Hext.
  { intros page u Hl. eapply links_to_ext; [..|exact Hl]; done. }
  pose proof (loop_body_sets l) as Hsets. cbv zeta in Hsets.
  set (cur := set_pop (iteration l) (urls_to_visit (scraper l))) in *.
  destruct Hsets as [(Hcur & Hv & Hf & _)|(Hcur & Hv & _ & Hf)].
  - rewrite Hv, Hf. split.
    + destruct (decide (base_url (scraper l) = cur)) as [Heq|Hneq].
      * rewrite Heq. by apply elem_of_union_l.
      * clear -Hseed Hneq. set_solver.
    + intros page u Hpage Hl%Hext. specialize (H page u Hpage Hl).
      destruct (decide (u = cur)) as [->|Hneq]; [by apply elem_of_union_l|].
      clear -H Hneq. set_solver.
  - rewrite Hv. split.
    + destruct (decide (base_url (scraper l) = cur)) as [Heq|Hneq].
      * rewrite Heq. clear. set_solver.
      * apply elem_of_union in Hseed as [Hin|Hin].
        { clear -Hin. set_solver. }
        apply elem_of_union_r, Hf. by left.
    + intros page u Hpage Hl%Hext.
      destruct (decide (u = cur)) as [->|Hneq]; [clear; set_solver|].
      destruct (decide (u ∈ visited_urls (scraper l))) as [Hold|Hnew].
      { clear -Hold. set_solver. }
      apply elem_of_union_r, Hf.
      apply elem_of_union in Hpage as [->%elem_of_singleton|Hpage];
        [by right|left].
      specialize (H page u Hpage Hl). clear -H Hnew Hneq. set_solver.
Qed.

Lemma iterations_followed n l :
  links_followed (scraper l) → links_followed (scraper (iterations n l).1).
Proof.
  apply (iterations_ind (λ l, links_followed (scraper l))).
  - apply poll_followed.
  - intros l0 ? (? & _)%loop_condition_true. by apply loop_body_followed.
Qed.

Lemma iterations_running n l :
  (∀ i, stop_requested i = false) → is_scraping (scraper l) = true →
  is_scraping (scraper (poll (iterations n l).1)) = true.
Proof.
  intros Hstop Hrun. rewrite poll_not_requested by done. revert Hrun.
  apply (iterations_ind (λ l, is_scraping (scraper l) = true)).
  - intros l0 ?. by rewrite poll_not_requested.
  - intros l0 ? _. by destruct (loop_body_fields l0) as (_ & _ & _ & -> & _).
Qed.

(** X8.  When a run started by [__init__] ends below the page budget and
    without a stop, it has requested the seed and has followed every link:
    each link of a requested page that [urljoin] resolves to a URL with the
    netloc of the seed and the scheme [http] or [https], and that the loop
    over the links reaches, has been requested too. *)
Theorem every_link_followed base self fuel :
  __init__ base = Ok self → (∀ i, stop_requested i = false) → 50 ≤ fuel →
  ∃ s n out,
    start_scraping fuel self = Some (s, n, out) ∧
    (n < 50 →
     base ∈ fetched out ∧
     ∀ page url, page ∈ fetched out → links_to self page url →
                 url ∈ fetched out).
Proof.
  intros Hinit Hstop Hfuel. destruct (run_ends _ _ _ Hinit Hfuel)
    as (s & n & loop_out & Hrun & _).
  eexists _, _, _. split; [exact Hrun|]. intros Hn.
  destruct (init_spec _ _ Hinit) as (Hb & _ & _ & Hv & Hf & Hs & Hmax).
  apply start_scraping_requests in Hrun as (Hc & _ & Hlen & _ & ->).
  assert (links_followed
            (scraper (poll (iterations fuel (loop_entry self)).1)))
    as [Hseed Hclosed].
  { apply poll_followed, iterations_followed. cbn [scraper loop_entry].
    split; [rewrite Hf, Hb; set_solver|]. rewrite Hv. set_solver. }
  pose proof (iterations_running fuel (loop_entry self) Hstop Hs) as Hrunning.
  pose proof (iterations_visited fuel (loop_entry self)) as Hvis.
  pose proof (iterations_fetched fuel (loop_entry self)) as Hfetched.
  destruct (iterations_fields fuel (loop_entry self)) as (Hb' & Hd' & Hm').
  destruct (poll_fields (iterations fuel (loop_entry self)).1)
    as (Hpp & _ & Hpb & Hpd & _ & Hpv & Hpf & Hpm).
  destruct (iterations fuel (loop_entry self)) as [l out].
  cbn [fst snd scraper loop_entry pages_crawled] in *.
  destruct Hfetched as (_ & _ & _ & _ & Hpages).
  assert (urls_to_visit (scraper (poll l)) = ∅) as Hempty.
  { destruct (decide (urls_to_visit (scraper (poll l)) = ∅)) as [|Hne];
      [done|].
    rewrite (proj2 (loop_condition_true (poll l))) in Hc; [done|].
    split_and!; [done| |done]. rewrite Hpp, Hpm, Hm', Hmax. lia. }
  rewrite Hempty, Hpv, Hvis, Hv in Hseed, Hclosed.
  split.
  - rewrite Hpb, Hb', Hb in Hseed. set_solver.
  - intros page url Hpage Hlink.
    assert (url ∈ (∅ ∪ list_to_set (fetched out)) ∪ (∅ : gset string))
      as Hin; [|set_solver].
    apply (Hclosed page); [set_solver|].
    eapply links_to_ext; [..|exact Hlink]; congruence.
Qed.

End Further.

(** ** Pauses, failures and what is reported *)

Lemma sleeps_app out1 out2 : sleeps (out1 ++ out2) = sleeps out1 + sleeps out2.
Proof. unfold sleeps. by rewrite filter_app, length_app. Qed.

Lemma sleeps_cons_ne ev out : ev ≠ Sleep → sleeps (ev :: out) = sleeps out.
Proof. intros ?. unfold sleeps. by rewrite filter_cons_False. Qed.

Lemma sleeps_statuses lines : sleeps (map Status lines) = 0.
Proof.
  induction lines as [|m lines IH]; [done|]. unfold sleeps in *. simpl.
  by rewrite filter_cons_False.
Qed.

Lemma polite_statuses b lines rest :
  polite b (map Status lines ++ rest) = polite b rest.
Proof. induction lines as [|m lines IH]; [done|]. exact IH. Qed.

Lemma elem_of_results emails out : Result emails ∈ out ↔ emails ∈ results out.
Proof.
  unfold results. rewrite list_elem_of_omap. split.
  - intros ?. by exists (Result emails).
  - intros ([] & ? & [= <-]). done.
Qed.

Lemma status_count_elem m out : Status m ∈ out → status_count m out ≠ 0.
Proof. intros Hin Hz. by apply status_count_zero in Hz. Qed.

Section Reports.
Context `{W : World}.

Lemma set_list_empty : set_list (∅ : gset string) = [].
Proof.
  pose proof (set_list_perm ∅) as H. rewrite elements_empty in H.
  by apply Permutation_nil_r in H.
Qed.

Lemma elem_of_set_list a (X : gset string) : a ∈ set_list X ↔ a ∈ X.
Proof. by rewrite set_list_perm, elem_of_elements. Qed.

Lemma add_emails_statuses self l :
  ∃ lines, (add_emails self l).2 = map Status lines.
Proof.
  revert self. induction l as [|email rest IH]; intros self; [by exists []|].
  simpl. destruct (decide _).
  - destruct (IH (set_emails_found ({[email]} ∪ emails_found self) self))
      as [lines Hl].
    destruct (add_emails _ rest) as [s' out]. simpl in *. subst.
    by eexists (_ :: lines).
  - apply IH.
Qed.

(** A page's part of the trace: the visiting line, the request, then
    status lines only. *)
Lemma crawl_page_lines self url :
  ∃ lines, (_crawl_page self url).2 =
           Status ("Visiting: " +:+ url) :: Get url :: map Status lines.
Proof.
  unfold _crawl_page. destruct (fetch url) as [e|e|new_emails hrefs].
  - by eexists [_].
  - by eexists [_].
  - destruct (add_emails_statuses self new_emails) as [lines Hl].
    destruct (add_emails self new_emails) as [s1 found]. simpl in Hl. subst.
    destruct (add_links s1 hrefs) as [s2 [e|]]; simpl.
    + eexists (lines ++ [_]). by rewrite map_app.
    + exists lines. by rewrite app_nil_r.
Qed.

Lemma loop_body_polite l rest :
  polite false ((loop_body l).2 ++ rest) = polite false rest ∧
  sleeps (loop_body l).2 = length (fetched (loop_body l).2).
Proof.
  unfold loop_body. destruct (dequeue l) as [[marked url] fresh].
  destruct fresh; [|done].
  destruct (crawl_page_lines marked url) as [lines Hl].
  pose proof (crawl_page_events marked url) as [Hg _].
  destruct (_crawl_page marked url) as [crawled out]. cbn [fst snd] in *.
  split.
  - subst out. rewrite <-app_assoc. simpl. rewrite polite_statuses. done.
  - rewrite sleeps_app, fetched_app, Hg. subst out.
    change (sleeps (Status ("Visiting: " +:+ url) :: Get url ::
                    map Status lines))
      with (sleeps (map Status lines)).
    by rewrite sleeps_statuses.
Qed.

Lemma iterations_polite n l rest :
  polite false ((iterations n l).2 ++ rest) = polite false rest ∧
  sleeps (iterations n l).2 = length (fetched (iterations n l).2).
Proof.
  revert l. induction n as [|n IH]; intros l; [done|].
  rewrite iterations_S. destruct (loop_condition (poll l)); [|done].
  cbn [fst snd]. destruct (IH (loop_body (poll l)).1) as [IH1 IH2].
  destruct (loop_body_polite (poll l)
              ((iterations n (loop_body (poll l)).1).2 ++ rest)) as [Hb1 Hb2].
  split.
  - by rewrite <-app_assoc, Hb1.
  - rewrite sleeps_app, fetched_app, length_app. by rewrite Hb2, IH2.
Qed.

(** X9.  A run started by [__init__] pauses once after each request: in
    its trace every request is followed by a pause before the next request
    and before the end, and the pauses are as many as the pages. *)
Theorem one_pause_per_request base self fuel :
  __init__ base = Ok self → 50 ≤ fuel →
  ∃ s n out,
    start_scraping fuel self = Some (s, n, out) ∧
    polite false out = true ∧ sleeps out = n.
Proof.
  intros Hinit Hfuel. destruct (run_ends _ _ _ Hinit Hfuel)
    as (s & n & loop_out & Hrun & _).
  eexists _, _, _. split; [exact Hrun|].
  apply start_scraping_requests in Hrun as (_ & _ & -> & Hout & _).
  rewrite Hout.
  destruct (iterations_polite fuel (loop_entry self)
              [Status "Scraping finished.";
               Result (set_list (emails_found
                  (scraper (poll (iterations fuel (loop_entry self)).1))))])
    as [-> Hs].
  split; [done|]. rewrite sleeps_app, Hs, !sleeps_cons_ne by done.
  apply Nat.add_0_r.
Qed.

Lemma iterations_empty m l :
  urls_to_visit (scraper l) = ∅ →
  (iterations m l).2 = [] ∧ poll (iterations m l).1 = poll l.
Proof.
  intros He. destruct m as [|m]; [done|]. rewrite iterations_S.
  destruct (loop_condition (poll l)) eqn:Hc.
  { apply loop_condition_true in Hc as (Hne & _).
    destruct (poll_fields l) as (_ & _ & _ & _ & _ & _ & Hf & _).
    by rewrite Hf in Hne. }
  cbn [fst snd]. by rewrite poll_idemp.
Qed.

(** X10.  When the request for the seed raises a [RequestException], a run
    started by [__init__] makes that one request, reports the error, and
    ends with an empty list of addresses. *)
Theorem unreachable_seed base self e fuel :
  __init__ base = Ok self → stop_requested 0 = false →
  fetch base = RequestException e → 1 ≤ fuel →
  ∃ s,
    start_scraping fuel self =
      Some (s, 1,
            [Status ("Visiting: " +:+ base); Get base;
             Status ("Error visiting " +:+ base +:+ ": " +:+ e); Sleep;
             Status "Scraping finished."; Result []]) ∧
    emails_found s = ∅ ∧ visited_urls s = {[ base ]}.
Proof.
  intros Hinit Hstop Hfetch Hfuel.
  destruct (init_spec _ _ Hinit) as (Hb & _ & He & Hv & Hf & Hs & Hmax).
  assert (loop_condition (loop_entry self) = true) as Hc.
  { apply loop_condition_true. cbn [scraper loop_entry pages_crawled].
    rewrite Hf, Hmax. split_and!; [set_solver|lia|done]. }
  assert (∃ l1, loop_body (loop_entry self) =
                (l1, [Status ("Visiting: " +:+ base); Get base;
                      Status ("Error visiting " +:+ base +:+ ": " +:+ e);
                      Sleep]) ∧
                urls_to_visit (scraper l1) = ∅ ∧
                emails_found (scraper l1) = ∅ ∧
                visited_urls (scraper l1) = {[ base ]} ∧
                pages_crawled l1 = 1) as (l1 & Hbody & Hf1 & He1 & Hv1 & Hp1).
  { unfold loop_body. pose proof (dequeue_spec (loop_entry self)) as Hd.
    destruct (dequeue (loop_entry self)) as [[marked url] fresh].
    cbn [scraper loop_entry iteration] in Hd.
    destruct Hd as (-> & Hfm & _ & _ & Hem & _ & _ & Hvm).
    assert (set_pop 0 (urls_to_visit self) = base) as Hpop.
    { pose proof (set_pop_elem 0 (urls_to_visit self)) as Hin.
      rewrite Hf in Hin. rewrite Hf.
      apply (elem_of_singleton_1 (C:=gset string)), Hin. set_solver. }
    rewrite Hpop in *.
    destruct fresh.
    2:{ destruct Hvm as [Hin _]. rewrite Hv in Hin. set_solver. }
    destruct Hvm as [_ Hvm].
    rewrite (crawl_page_request_exception marked base e Hfetch).
    eexists. split; [reflexivity|]. cbn [scraper pages_crawled loop_entry].
    rewrite Hfm, Hem, Hvm, Hf, He, Hv.
    split_and!; [set_solver|done|set_solver|done]. }
  destruct fuel as [|m]; [lia|].
  rewrite start_scraping_eq. cbv zeta. rewrite iterations_S.
  rewrite (poll_not_requested (loop_entry self)) by done.
  rewrite Hc, Hbody. cbn [fst snd].
  destruct (iterations_empty m l1 Hf1) as [-> ->].
  destruct (poll_fields l1) as (Hpp & _ & _ & _ & Hpe & Hpv & Hpf & _).
  assert (loop_condition (poll l1) = false) as ->.
  { apply not_true_is_false. intros (Hne & _)%loop_condition_true.
    by rewrite Hpf, Hf1 in Hne. }
  rewrite Hpp, Hp1, Hpe, He1, set_list_empty.
  eexists. split; [reflexivity|].
  cbn [emails_found visited_urls set_is_scraping]. by rewrite Hpe, Hpv.
Qed.

Lemma add_links_app self before rest :
  (∀ h, h ∈ before → ∃ u, urljoin (base_url self) h = Ok u) →
  add_links self (before ++ rest) = add_links (add_links self before).1 rest.
Proof.
  revert self. induction before as [|h before IH]; intros self Hres; [done|].
  destruct (Hres h) as [u Hu]; [left|]. simpl. rewrite Hu.
  destruct (_is_valid_url self u); apply IH; intros h' Hh'; apply Hres;
    by right.
Qed.

(** X11.  When [urljoin] raises on a link of a page, [_crawl_page] keeps
    the addresses of the page and the links before that one, reports the
    exception as an unexpected error, and drops every later link of the
    page. *)
Theorem links_after_failure_dropped self url found before bad after e :
  fetch url = Document found (before ++ bad :: after) →
  (∀ h, h ∈ before → ∃ u, urljoin (base_url self) h = Ok u) →
  urljoin (base_url self) bad = Raise e →
  _crawl_page self url =
    ((add_links (add_emails self found).1 before).1,
     [Status ("Visiting: " +:+ url); Get url] ++ (add_emails self found).2 ++
     [Status ("An unexpected error occurred: " +:+ e)]).
Proof.
  intros Hfetch Hres Hbad. rewrite (crawl_page_document _ _ _ _ Hfetch).
  cbv zeta. destruct (add_emails_fields self found) as (Hb & _).
  rewrite add_links_app by by rewrite Hb.
  destruct (add_links_fields (add_emails self found).1 before) as (Hb' & _).
  rewrite (add_links_raises _ bad after e) by by rewrite Hb', Hb.
  done.
Qed.

(** X12.  When the addresses of every page are those
    [_find_emails_on_page] returns for a text, every address a run started
    by [__init__] announces or hands to the result callback has the form
    [local@domain.tld]. *)
Theorem reported_addresses_shaped base self fuel :
  (∀ url found hrefs, fetch url = Document found hrefs →
                      ∃ text, found = _find_emails_on_page text) →
  __init__ base = Ok self → 50 ≤ fuel →
  ∃ s n out,
    start_scraping fuel self = Some (s, n, out) ∧
    (∀ emails a, Result emails ∈ out → a ∈ emails → email_shaped a) ∧
    (∀ a, Status ("Found Email: " +:+ a) ∈ out → email_shaped a).
Proof.
  intros Hscan Hinit Hfuel. destruct (run_ends _ _ _ Hinit Hfuel)
    as (s & n & loop_out & Hrun & _).
  eexists _, _, _. split; [exact Hrun|].
  destruct (init_spec _ _ Hinit) as (_ & _ & He & _).
  apply start_scraping_requests in Hrun as (_ & _ & _ & Hout & _).
  rewrite Hout.
  destruct (poll_fields (iterations fuel (loop_entry self)).1)
    as (_ & _ & _ & _ & -> & _).
  pose proof (iterations_fetched fuel (loop_entry self)) as Hf.
  assert (∀ a, a ∈ emails_found
                     (scraper (iterations fuel (loop_entry self)).1) →
               email_shaped a) as Hshaped.
  { intros a Ha. pose proof (iterations_emails fuel (loop_entry self) a) as Hm.
    destruct (iterations fuel (loop_entry self)) as [l out'].
    cbn [fst snd scraper loop_entry] in *. apply Hm in Ha.
    rewrite He in Ha. destruct Ha as [Ha|(u & es & hs & _ & Hdoc & Ha)].
    { by apply not_elem_of_empty in Ha. }
    destruct (Hscan _ _ _ Hdoc) as [text ->].
    destruct (findall_from_spec email_regex 0 text) as [Hall _]; [lia|].
    apply matches_email_shaped. by eapply Forall_forall in Hall. }
  split.
  - intros emails a Hin Ha. apply elem_of_results in Hin.
    destruct (iterations fuel (loop_entry self)) as [l out'].
    cbn [fst snd] in *. destruct Hf as (Hr & _).
    rewrite results_app, Hr in Hin. simpl in Hin.
    apply list_elem_of_singleton in Hin as ->.
    apply Hshaped. by apply elem_of_set_list in Ha.
  - intros a Hin. apply Hshaped.
    pose proof (iterations_count fuel (loop_entry self) a) as Hcount.
    destruct (iterations fuel (loop_entry self)) as [l out'].
    cbn [fst snd] in *. destruct Hcount as [_ Hcount].
    apply elem_of_app in Hin as [Hin|Hin].
    + apply status_count_elem in Hin. rewrite Hcount in Hin.
      destruct (decide _) as [[? _]|]; done.
    + apply elem_of_cons in Hin as [Hin|Hin].
      { injection Hin as Hin. vm_compute in Hin. discriminate Hin. }
      apply elem_of_cons in Hin as [Hin|Hin]; [done|].
      by apply elem_of_nil in Hin.
Qed.

End Reports.

(** ** The window *)

Lemma lstrip_empty p s : Str.lstrip p s = "" ↔ Str.forallb p s = true.
Proof.
  induction s as [|a s IH]; [done|]. simpl. by destruct (p a).
Qed.

(** On ASCII text a white-space character is one byte. *)
Lemma space_length_ascii a s :
  (Str.code a <? 128) = true →
  Str.space_length (String a s) = if Str.is_whitespace a then 1 else 0.
Proof.
  destruct a as [b0 b1 b2 b3 b4 b5 b6 b7], s as [|c s];
    destruct b0, b1, b2, b3, b4, b5, b6, b7;
    intros H; vm_compute in H; try discriminate H; vm_compute; reflexivity.
Qed.

Lemma lstrip_space_ascii s :
  Str.isascii s = true → Str.lstrip_space s = Str.lstrip Str.is_whitespace s.
Proof.
  unfold Str.lstrip_space, Str.isascii.
  induction s as [|a s IH]; [done|]. cbn [Str.forallb].
  intros [Ha Hs]%andb_true_iff.
  cbn [Str.lstrip_from Str.lstrip]. rewrite space_length_ascii by done.
  destruct (Str.is_whitespace a); [by apply IH|done].
Qed.

(** What [lstrip] leaves starts with no white space. *)
Lemma lstrip_from_stable skip s :
  Str.lstrip_space (Str.lstrip_from skip s) = Str.lstrip_from skip s.
Proof.
  unfold Str.lstrip_space. revert skip.
  induction s as [|a s IH]; intros skip; [done|].
  cbn [Str.lstrip_from]. destruct skip as [|skip]; [|apply IH].
  destruct (Str.space_length (String a s)) as [|k] eqn:E; [|apply IH].
  cbn [Str.lstrip_from]. by rewrite E.
Qed.

Lemma strip_space_empty s : Str.strip_space s = "" ↔ Str.lstrip_space s = "".
Proof.
  unfold Str.strip_space. pose proof (lstrip_from_stable 0 s) as H.
  change (Str.lstrip_from 0 s) with (Str.lstrip_space s) in H.
  destruct (Str.lstrip_space s) as [|a t]; [done|].
  cbn [Str.rstrip_space]. rewrite H. by rewrite bool_decide_eq_false_2.
Qed.

Lemma startswith_app p s : Str.startswith p (p +:+ s) = true.
Proof.
  unfold Str.startswith. induction p as [|a p IH]; [by destruct s|].
  simpl. by destruct (ascii_dec a a).
Qed.

(** X13.  [start_extraction] refuses an ASCII entry exactly when it is
    empty or made of white space only; and whatever the entry, the URL it
    hands to the engine starts with ["http://"] or ["https://"]. *)
Theorem start_extraction_cases entry :
  (Str.isascii entry = true →
   (start_extraction entry = None ↔
    Str.forallb Str.is_whitespace entry = true)) ∧
  (∀ url, start_extraction entry = Some url →
          Str.startswith "http://" url = true ∨
          Str.startswith "https://" url = true).
Proof.
  unfold start_extraction.
  set (domain := Str.strip_space entry).
  split.
  { intros Hascii.
    rewrite <-lstrip_empty, <-(lstrip_space_ascii entry Hascii).
    rewrite <-strip_space_empty. fold domain.
    case_bool_decide as Hblank; [done|].
    split; [by destruct (negb _)|]. intros H. by destruct Hblank. }
  intros url. case_bool_decide as Hblank; [intros [=]|].
  destruct (Str.startswith "http://" domain) eqn:Hhttp; cbn [negb orb].
  { intros [= <-]. by left. }
  destruct (Str.startswith "https://" domain) eqn:Hhttps; cbn [negb orb].
  { intros [= <-]. by right. }
  intros [= <-]. right. apply startswith_app.
Qed.

Lemma foldl_deliver_end ui out emails :
  foldl deliver ui (out ++ [Status "Scraping finished."; Result emails]) =
  display_results emails
    (update_status "Scraping finished." (foldl deliver ui out)).
Proof. by rewrite foldl_app. Qed.

(** X14.  A click on the button with a non-blank entry, followed to the end
    of the thread, leaves the button enabled again.  When [EmailScraper]
    could be built, the widgets are those the run left, [check_thread]
    changes nothing more, and the label reads ["Scraping finished."]; when
    [urlparse] raised on the URL, the label reads
    ["Scraping finished or stopped."] and the text box is empty. *)
Theorem extraction_ends `{W : World} entry base fuel ui :
  start_extraction entry = Some base → 50 ≤ fuel →
  ∃ ui',
    extraction fuel entry ui = Some ui' ∧ extract_button ui' = true ∧
    ((∃ s out, run_scraper fuel base started = Ok (Some (s, out, ui')) ∧
               status_label ui' = "Scraping finished.") ∨
     (∃ e, urlparse base = Raise e ∧
           status_label ui' = "Scraping finished or stopped." ∧
           results_textbox ui' = "")).
Proof.
  intros Hentry Hfuel. unfold extraction, start_extraction_widgets.
  rewrite Hentry. fold started. unfold run_scraper.
  destruct (__init__ base) as [self|e] eqn:Hinit.
  - destruct (run_ends _ _ _ Hinit Hfuel) as (s & n & loop_out & -> & _).
    rewrite foldl_deliver_end. eexists. split; [reflexivity|].
    split; [reflexivity|]. left. eexists _, _. split; reflexivity.
  - eexists. split; [reflexivity|]. split; [reflexivity|]. right.
    unfold __init__ in Hinit.
    destruct (urlparse base) as [parsed|e'] eqn:Hparse; [done|].
    exists e'. split_and!; reflexivity.
Qed.

(** * The theorems at concrete inputs *)

Lemma C10_netloc_scoping_witness :
  UrlLib.hostname
    {| scheme := "https"; netloc := "example.com:8080"; path := "/x";
       params := ""; query := ""; fragment := "" |} = "example.com" ∧
  UrlLib.hostname
    {| scheme := "https"; netloc := "example.com"; path := "/";
       params := ""; query := ""; fragment := "" |} = "example.com" ∧
  _is_valid_url (W:=small_world) example_scraper
    "https://example.com:8080/x" = false ∧
  "https://example.com:8080/x" ∉
    urls_to_visit
      (scraper (iterations (W:=small_world) 1 (loop_entry example_scraper)).1).
Proof.
  split; [reflexivity|]. split; [reflexivity|].
  destruct (C10_netloc_scoping (W:=small_world) "https://example.com/"
              example_scraper "https://example.com:8080/x"
              {| scheme := "https"; netloc := "example.com:8080";
                 path := "/x"; params := ""; query := ""; fragment := "" |})
    as (Hrej & Hnever & _).
  - reflexivity.
  - reflexivity.
  - simpl. discriminate.
  - split; [exact Hrej|exact (Hnever 1)].
Defined.

Lemma C3_frontier_visited_disjoint_witness :
  frontier_fresh
    (scraper (iterations (W:=small_world) 2 (loop_entry example_scraper)).1) ∧
  ∃ s n out,
    start_scraping (W:=small_world) 50 example_scraper = Some (s, n, out) ∧
    NoDup (fetched out).
Proof.
  destruct (C3_frontier_visited_disjoint (W:=small_world)
              "https://example.com/" example_scraper)
    as (Hall & _ & _ & _ & _ & _ & Hrun).
  - reflexivity.
  - split; [exact (Hall 2)|]. apply (Hrun 50). lia.
Defined.

Lemma C4_page_budget_witness :
  ∃ s out,
    start_scraping (W:=endless_world) 50 example_scraper = Some (s, 50, out) ∧
    length (fetched out) = 50.
Proof.
  destruct (C4_page_budget (W:=endless_world) "https://example.com/"
              example_scraper 50)
    as (s & n & out & Hrun & _ & Hlen & Hfull).
  - reflexivity.
  - lia.
  - assert (n = 50) as ->.
    { apply Hfull; [reflexivity|]. intros k Hk.
      assert (forallb
                (λ k, bool_decide
                        (urls_to_visit
                           (scraper (iterations (W:=endless_world) k
                                       (loop_entry example_scraper)).1) ≠ ∅))
                (seq 0 50) = true) as Hall by (vm_compute; reflexivity).
      rewrite forallb_forall in Hall.
      specialize (Hall k). rewrite bool_decide_eq_true in Hall.
      apply Hall, in_seq. lia. }
    exists s, out. split; [exact Hrun|exact Hlen].
Defined.

Lemma C5_each_email_once_witness :
  (∃ s n out,
     start_scraping (W:=small_world) 50 example_scraper = Some (s, n, out) ∧
     NoDup (@set_list small_world (emails_found s)) ∧
     status_count "Found Email: a@b.com" out =
       if decide ("a@b.com" ∈ emails_found s) then 1 else 0) ∧
  add_emails example_scraper
    (["x@y.org"] ++ "a@b.com" :: ["a@b.com"]) =
  (set_emails_found {[ "a@b.com"; "x@y.org" ]} example_scraper,
   [found_line "x@y.org"; found_line "a@b.com"]).
Proof.
  destruct (C5_each_email_once (W:=small_world) "https://example.com/"
              example_scraper 50)
    as (s & n & out & Hrun & _ & Hnd & _ & Hcount & _ & Hfirst).
  - reflexivity.
  - lia.
  - split; [exists s, n, out; split_and!; [exact Hrun|exact Hnd|apply Hcount]|].
    destruct (Hfirst example_scraper ["x@y.org"] "a@b.com" ["a@b.com"])
      as (-> & _).
    + compute_done.
    + compute_done.
    + reflexivity.
Defined.

Lemma C7_run_always_completes_witness :
  ∃ s n loop_out,
    start_scraping (W:=dead_world) 50 example_scraper =
      Some (s, n,
            loop_out ++ [Status "Scraping finished.";
                         Result (@set_list dead_world (emails_found s))]) ∧
    is_scraping s = false.
Proof.
  destruct (C7_run_always_completes (W:=dead_world) "https://example.com/"
              example_scraper 50)
    as (s & n & loop_out & Hrun & _ & _ & Hstopped & _).
  - reflexivity.
  - lia.
  - exists s, n, loop_out. split; [exact Hrun|exact Hstopped].
Defined.

Lemma C6_failed_fetch_is_skipped_witness :
  ∃ l',
    iterations (W:=small_world) 1 before_failure =
      (l',
       [Status "Visiting: https://example.com/down";
        Get "https://example.com/down";
        Status
          ("Error visiting https://example.com/down: " +:+
           "500 Server Error: Internal Server Error for url: " +:+
           "https://example.com/down");
        Sleep]) ∧
    emails_found (scraper l') = emails_found (scraper before_failure) ∧
    urls_to_visit (scraper l') = ∅ ∧
    pages_crawled l' = 3.
Proof.
  destruct (proj1 (C6_failed_fetch_is_skipped (W:=small_world))
              before_failure "https://example.com/down"
              (Response "https://example.com/down" 500
                        "Internal Server Error" [] []))
    as (e & He & _ & Hemails & Hfrontier & Hpages & Hnext).
  - compute_done.
  - reflexivity.
  - reflexivity.
  - reflexivity.
  - simpl. lia.
  - vm_compute in He. injection He as <-.
    eexists. split; [exact (Hnext 0)|]. split; [exact Hemails|].
    split; [|exact Hpages]. etrans; [exact Hfrontier|]. by vm_compute.
Defined.

(** C6, as the claim states it, fails: the seed is answered with status
    300, which is no 2xx status, and the page is parsed: its address is
    recorded and announced, its links enter the frontier, and no error line
    is sent. *)
Lemma C6_other_status_is_parsed :
  choices_site "https://example.com/" =
    Response "https://example.com/" 300 "Multiple Choices"
             ["a@b.com"] ["/en"; "/fr"] ∧
  ∃ l',
    iterations (W:=choices_world) 1 (loop_entry example_scraper) =
      (l', [Status "Visiting: https://example.com/";
            Get "https://example.com/";
            Status "Found Email: a@b.com"; Sleep]) ∧
    emails_found (scraper l') = {[ "a@b.com" ]} ∧
    urls_to_visit (scraper l') =
      {[ "https://example.com/en"; "https://example.com/fr" ]} ∧
    pages_crawled l' = 1.
Proof.
  split; [reflexivity|]. eexists. split; [vm_compute; reflexivity|].
  split_and!; by vm_compute.
Qed.

Lemma C8_results_shown_sorted_witness :
  ∃ s before ui',
    run_scraper (W:=small_world) 50 "https://example.com/" started =
      Ok (Some (s,
                before ++ [Result (@set_list small_world (emails_found s))],
                ui')) ∧
    results_textbox ui' =
      "Found 3 unique email(s):" +:+ Str.newline +:+ Str.newline +:+
      "A@B.COM" +:+ Str.newline +:+ "a@b.com" +:+ Str.newline +:+
      "x@y.org" +:+ Str.newline.
Proof.
  destruct (C8_results_shown_sorted (W:=small_world) "https://example.com/"
              example_scraper 50 started)
    as (s & before & ui' & shown & Hrun & _).
  - reflexivity.
  - lia.
  - exists s, before, ui'. split; [exact Hrun|].
    assert (∃ s0 out0 box,
              run_scraper (W:=small_world) 50 "https://example.com/" started =
                Ok (Some (s0, out0,
                          {| status_label := "Scraping finished.";
                             results_textbox := box;
                             extract_button := true |})) ∧
              box =
                "Found 3 unique email(s):" +:+ Str.newline +:+ Str.newline +:+
                "A@B.COM" +:+ Str.newline +:+ "a@b.com" +:+ Str.newline +:+
                "x@y.org" +:+ Str.newline)
      as (s0 & out0 & box & Hc & Hbox).
    { eexists _, _, _. split; vm_compute; reflexivity. }
    rewrite Hrun in Hc. injection Hc as _ _ Hui. rewrite Hui. exact Hbox.
Defined.

(** C8, as the claim states it, fails: the list handed to the result
    callback at the end of this run is not in ascending order. *)
Lemma C8_delivered_unsorted :
  ∃ s n out,
    start_scraping (W:=small_world) 50 example_scraper = Some (s, n, out) ∧
    last out = Some (Result ["a@b.com"; "A@B.COM"; "x@y.org"]) ∧
    results out = [["a@b.com"; "A@B.COM"; "x@y.org"]] ∧
    ¬ Sorted String.le ["a@b.com"; "A@B.COM"; "x@y.org"] ∧
    sorted ["a@b.com"; "A@B.COM"; "x@y.org"] =
      ["A@B.COM"; "a@b.com"; "x@y.org"].
Proof.
  eexists _, _, _. split; [vm_compute; reflexivity|].
  split; [by vm_compute|]. split; [by vm_compute|].
  split; [|by vm_compute].
  intros Hsorted. apply Sorted_inv in Hsorted as [_ Hhd].
  apply HdRel_inv in Hhd. by vm_compute in Hhd.
Qed.

(** * The further properties at concrete inputs *)

Lemma find_emails_shaped_witness :
  "a@b.com" ∈ _find_emails_on_page "Write to a@b.com, or to x@y.org." ∧
  email_shaped "a@b.com".
Proof.
  assert ("a@b.com" ∈
          _find_emails_on_page "Write to a@b.com, or to x@y.org.") as Hin
    by compute_done.
  split; [exact Hin|]. exact (find_emails_shaped _ _ Hin).
Defined.

Lemma find_emails_needs_at_witness :
  _find_emails_on_page "no address here" = [].
Proof. apply find_emails_needs_at. reflexivity. Defined.

Lemma find_emails_delimited_witness :
  _find_emails_on_page "Write to a@b.com, or call." = ["a@b.com"].
Proof.
  apply (find_emails_delimited "Write to " "a" "b" "com" ", or call.").
  - simpl. lia.
  - reflexivity.
  - simpl. lia.
  - reflexivity.
  - simpl. lia.
  - reflexivity.
  - reflexivity.
  - reflexivity.
  - reflexivity.
  - reflexivity.
Defined.

Lemma stop_ends_run_witness :
  ∃ s n out,
    start_scraping (W:=stopping_world) 50 example_scraper = Some (s, n, out) ∧
    is_scraping s = false ∧ n ≤ 2.
Proof.
  destruct (stop_ends_run (W:=stopping_world) example_scraper 2 50)
    as (s & n & out & Hrun & Hs & _ & Hn).
  - reflexivity.
  - lia.
  - exists s, n, out. split; [exact Hrun|]. split; [exact Hs|exact Hn].
Defined.

Lemma visited_is_requested_witness :
  ∃ s n out,
    start_scraping (W:=small_world) 50 example_scraper = Some (s, n, out) ∧
    visited_urls s = list_to_set (fetched out) ∧
    size (visited_urls s) = n.
Proof.
  apply (visited_is_requested (W:=small_world) "https://example.com/").
  - reflexivity.
  - lia.
Defined.

Lemma requests_are_links_witness :
  ∃ s n out,
    start_scraping (W:=small_world) 50 example_scraper = Some (s, n, out) ∧
    ∀ url, url ∈ fetched out →
      url = "https://example.com/" ∨
      ∃ page, page ∈ fetched out ∧
              links_to (W:=small_world) example_scraper page url.
Proof.
  apply (requests_are_links (W:=small_world) "https://example.com/").
  - reflexivity.
  - lia.
Defined.

Lemma every_link_followed_witness :
  ∃ s n out,
    start_scraping (W:=small_world) 50 example_scraper = Some (s, n, out) ∧
    "https://example.com/" ∈ fetched out.
Proof.
  destruct (every_link_followed (W:=small_world) "https://example.com/"
              example_scraper 50)
    as (s & n & out & Hrun & Hfollowed).
  - reflexivity.
  - intros i. reflexivity.
  - lia.
  - exists s, n, out. split; [exact Hrun|]. apply Hfollowed.
    assert (match start_scraping (W:=small_world) 50 example_scraper with
            | Some (_, pages, _) => pages
            | None => 50
            end < 50) as Hn by (vm_compute; lia).
    rewrite Hrun in Hn. exact Hn.
Defined.

Lemma one_pause_per_request_witness :
  ∃ s n out,
    start_scraping (W:=small_world) 50 example_scraper = Some (s, n, out) ∧
    polite false out = true ∧ sleeps out = n.
Proof.
  apply (one_pause_per_request (W:=small_world) "https://example.com/").
  - reflexivity.
  - lia.
Defined.

Lemma unreachable_seed_witness :
  ∃ s,
    start_scraping (W:=dead_world) 50 example_scraper =
      Some (s, 1,
            [Status "Visiting: https://example.com/";
             Get "https://example.com/";
             Status "Error visiting https://example.com/: Connection refused";
             Sleep; Status "Scraping finished."; Result []]) ∧
    emails_found s = ∅.
Proof.
  destruct (unreachable_seed (W:=dead_world) "https://example.com/"
              example_scraper "Connection refused" 50)
    as (s & Hrun & He & _).
  - reflexivity.
  - reflexivity.
  - reflexivity.
  - lia.
  - exists s. split; [exact Hrun|exact He].
Defined.

Lemma links_after_failure_dropped_witness :
  "https://example.com/team" ∈
    urls_to_visit (_crawl_page (W:=late_broken_world) example_scraper
                     "https://example.com/").1 ∧
  "https://example.com/more" ∉
    urls_to_visit (_crawl_page (W:=late_broken_world) example_scraper
                     "https://example.com/").1.
Proof.
  rewrite (links_after_failure_dropped (W:=late_broken_world) example_scraper
             "https://example.com/" ["a@b.com"] ["/team"] "https://[::1"
             ["/more"] "Invalid IPv6 URL").
  - split; compute_done.
  - reflexivity.
  - intros h Hh. apply list_elem_of_singleton in Hh as ->.
    eexists. vm_compute. reflexivity.
  - reflexivity.
Defined.

Lemma reported_addresses_shaped_witness :
  ∃ s n out,
    start_scraping (W:=text_world) 50 example_scraper = Some (s, n, out) ∧
    ∀ a, Status ("Found Email: " +:+ a) ∈ out → email_shaped a.
Proof.
  destruct (reported_addresses_shaped (W:=text_world) "https://example.com/"
              example_scraper 50)
    as (s & n & out & Hrun & _ & Hlines).
  - intros url found hrefs H.
    change (text_site url = Document found hrefs) in H. unfold text_site in H.
    destruct (bool_decide _); [injection H as <- _; eexists; reflexivity|].
    destruct (bool_decide _); [injection H as <- _; eexists; reflexivity|].
    discriminate H.
  - reflexivity.
  - lia.
  - exists s, n, out. split; [exact Hrun|exact Hlines].
Defined.

Lemma start_extraction_cases_witness :
  start_extraction "   " = None ∧
  start_extraction "example.com" = Some "https://example.com" ∧
  (Str.startswith "http://" "https://example.com" = true ∨
   Str.startswith "https://" "https://example.com" = true).
Proof.
  destruct (start_extraction_cases "   ") as [Hblank _].
  destruct (start_extraction_cases "example.com") as [_ Hprefix].
  split; [apply Hblank; reflexivity|].
  split; [reflexivity|]. apply Hprefix. reflexivity.
Defined.

(** White space outside ASCII is stripped like the rest: an entry made of
    a no-break space is blank, and starts nothing; an ideographic space
    before the domain and a no-break space after it are removed. *)
Example start_extraction_unicode_space :
  start_extraction (Str.bytes [194; 160]) = None ∧
  extraction (W:=small_world) 50 (Str.bytes [194; 160]) created =
    Some {| status_label := "Please enter a domain."; results_textbox := "";
            extract_button := true |} ∧
  start_extraction
    (Str.bytes [227; 128; 128] +:+ "example.com" +:+ Str.bytes [194; 160]) =
    Some "https://example.com".
Proof. split_and!; by vm_compute. Qed.

Lemma extraction_ends_witness :
  (∃ ui',
     extraction (W:=small_world) 50 " https://example.com/ " created =
       Some ui' ∧
     extract_button ui' = true ∧ status_label ui' = "Scraping finished.") ∧
  (∃ ui',
     extraction (W:=small_world) 50 "https://[::1" created = Some ui' ∧
     status_label ui' = "Scraping finished or stopped." ∧
     results_textbox ui' = "").
Proof.
  split.
  - destruct (extraction_ends (W:=small_world) " https://example.com/ "
                "https://example.com/" 50 created)
      as (ui' & Hend & Hbutton & [(s & out & _ & Hlabel)|(e & Hparse & _)]).
    + reflexivity.
    + lia.
    + exists ui'. split; [exact Hend|]. split; [exact Hbutton|exact Hlabel].
    + vm_compute in Hparse. discriminate Hparse.
  - destruct (extraction_ends (W:=small_world) "https://[::1" "https://[::1"
                50 created)
      as (ui' & Hend & _ & [(s & out & Hrun & _)|(e & _ & Hlabel & Hbox)]).
    + reflexivity.
    + lia.
    + vm_compute in Hrun. discriminate Hrun.
    + exists ui'. split; [exact Hend|]. split; [exact Hlabel|exact Hbox].
Defined.
